(** * ScholarHub calculator core: expression evaluator and diagram blocks

    A shallow embedding of the arithmetic core of
    [calculator-with-ai/app.js]: [tokenize], [evaluate],
    [resolveDiagramValue], [computeDiagramBlock], [getDiagramResults]
    and [evaluateWithX]; of the tools built on it, the keypad
    ([handleInput]), the notepad ([renderNotepad]) and the diagram tool
    ([addDiagramBlock], [syncBlock], [drawDiagramLinks]); and of the
    circuit builder ([hasPathFromBatteryToBulb]).

    JavaScript numbers are IEEE 754 binary64 values; they are modelled by
    Rocq's primitive [float], whose operations are the same binary64
    operations.  JavaScript strings are modelled by [string]; every
    [ascii] stands for one code unit in the range 0..255. *)

From Stdlib Require Import ZArith NArith String Ascii List Bool Arith Lia.
From Stdlib Require Import Floats DecimalString DecimalN Sorted.
From Equations Require Import Equations.
Import ListNotations.

Local Open Scope string_scope.
Local Open Scope Z_scope.

(** ** The ECMAScript built-ins the code calls *)

Module JS.

(** *** Code units and string helpers *)

Definition code (c : ascii) : Z := Z.of_nat (nat_of_ascii c).

Definition is_digit (c : ascii) : bool := (48 <=? code c) && (code c <=? 57).

Definition digit_value (c : ascii) : Z := code c - 48.

(** WhiteSpace and LineTerminator code units below 256: TAB, LF, VT, FF,
    CR, SP and NBSP.  This is what [trim] removes and what [\s] matches. *)
Definition is_white_space (c : ascii) : bool :=
  ((9 <=? code c) && (code c <=? 13)) || (code c =? 32) || (code c =? 160).

Fixpoint span (p : ascii -> bool) (s : string) : string * string :=
  match s with
  | String c r =>
      if p c then let (a, b) := span p r in (String c a, b)
      else (EmptyString, s)
  | EmptyString => (EmptyString, EmptyString)
  end.

(** [s.replace(/[^...]/g, '')]: keep the code units satisfying [p]. *)
Fixpoint keep (p : ascii -> bool) (s : string) : string :=
  match s with
  | String c r => if p c then String c (keep p r) else keep p r
  | EmptyString => EmptyString
  end.

Fixpoint existsb_string (p : ascii -> bool) (s : string) : bool :=
  match s with
  | String c r => p c || existsb_string p r
  | EmptyString => false
  end.

Fixpoint trim_start (s : string) : string :=
  match s with
  | String c r => if is_white_space c then trim_start r else s
  | EmptyString => EmptyString
  end.

Fixpoint trim_end (s : string) : string :=
  match s with
  | String c r =>
      match trim_end r with
      | EmptyString => if is_white_space c then EmptyString else String c EmptyString
      | r' => String c r'
      end
  | EmptyString => EmptyString
  end.

Definition trim (s : string) : string := trim_end (trim_start s).

Fixpoint ends_with (c : ascii) (s : string) : bool :=
  match s with
  | String d EmptyString => Ascii.eqb d c
  | String _ r => ends_with c r
  | EmptyString => false
  end.

Fixpoint repeat_string (c : ascii) (n : nat) : string :=
  match n with
  | O => EmptyString
  | S k => String c (repeat_string c k)
  end.

(** *** Decimal numerals and binary64 *)

Fixpoint digits_value_from (acc : Z) (s : string) : Z :=
  match s with
  | String c r => digits_value_from (10 * acc + digit_value c) r
  | EmptyString => acc
  end.

Definition digits_value (s : string) : Z := digits_value_from 0 s.

Definition string_of_Z (z : Z) : string :=
  NilZero.string_of_uint (N.to_uint (Z.to_N z)).

(** The binary64 value nearest to [p/q] (ties to even, overflow to
    infinity), for [p, q > 0]: the quotient is computed exactly, with the
    position of the remainder, and rounded once. *)
Definition round_ratio (neg : bool) (p q : Z) : float :=
  SF2Prim
    (let '(mz, ez, lz) := SFdiv_core_binary prec emax p 0 q 0 in
     binary_round_aux prec emax neg mz ez lz).

(** The Number value of [m * 10^e10], [m >= 0]. *)
Definition decimal_to_float (neg : bool) (m e10 : Z) : float :=
  if m =? 0 then (if neg then neg_zero else zero)
  else if 0 <=? e10 then round_ratio neg (m * 10 ^ e10) 1
  else round_ratio neg m (10 ^ (- e10)).

(** ExponentPart, when present: [e] or [E], an optional sign and at least
    one digit.  Returns the exponent and the rest of the string. *)
Definition exponent_part (s : string) : Z * string :=
  match s with
  | String c r =>
      if Ascii.eqb c "e" || Ascii.eqb c "E" then
        let '(neg, r1) :=
          match r with
          | String "+" r' => (false, r')
          | String "-" r' => (true, r')
          | _ => (false, r)
          end in
        let (ds, r2) := span is_digit r1 in
        match ds with
        | EmptyString => (0, s)
        | _ => ((if neg then - digits_value ds else digits_value ds), r2)
        end
      else (0, s)
  | EmptyString => (0, s)
  end.

(** The longest prefix of [s] that is a StrUnsignedDecimalLiteral, as its
    value (with sign [neg]) and the unread rest; [None] when no prefix is
    one. *)
Definition unsigned_decimal_prefix (neg : bool) (s : string)
  : option (float * string) :=
  if prefix "Infinity" s then
    Some ((if neg then neg_infinity else infinity), substring 8 (String.length s - 8)%nat s)
  else
    let (ip, r1) := span is_digit s in
    let finish (fp r2 : string) :=
      let (e, r3) := exponent_part r2 in
      Some (decimal_to_float neg (digits_value (ip ++ fp))
              (e - Z.of_nat (String.length fp)), r3) in
    match r1 with
    | String "." r =>
        let (fp, r2) := span is_digit r in
        match ip, fp with
        | EmptyString, EmptyString => None
        | _, _ => finish fp r2
        end
    | _ =>
        match ip with
        | EmptyString => None
        | _ => finish EmptyString r1
        end
    end.

Definition decimal_prefix (s : string) : option (float * string) :=
  match s with
  | String "+" r => unsigned_decimal_prefix false r
  | String "-" r => unsigned_decimal_prefix true r
  | _ => unsigned_decimal_prefix false s
  end.

(** [parseFloat(s)]. *)
Definition parseFloat (s : string) : float :=
  match decimal_prefix (trim_start s) with
  | Some (v, _) => v
  | None => nan
  end.

(** [parseInt(s, 10)] on a non-empty string of decimal digits, as the
    exact integer.  (JavaScript rounds it to a binary64 value; the two
    differ only above 2^53, far beyond the length of any array, so the
    array lookups of the code are the same.) *)
Definition parseInt_digits (s : string) : Z := digits_value s.

(** *** Non-decimal literals of StringToNumber: [0x], [0o], [0b] *)

Definition radix_digit (c : ascii) : option Z :=
  if is_digit c then Some (digit_value c)
  else if (97 <=? code c) && (code c <=? 102) then Some (code c - 87)
  else if (65 <=? code c) && (code c <=? 70) then Some (code c - 55)
  else None.

Fixpoint radix_value (radix acc : Z) (s : string) : option Z :=
  match s with
  | String c r =>
      match radix_digit c with
      | Some d => if d <? radix then radix_value radix (radix * acc + d) r else None
      | None => None
      end
  | EmptyString => Some acc
  end.

Definition radix_literal (s : string) : option float :=
  match s with
  | String "0" (String c (String d r)) =>
      let body := String d r in
      let lit (radix : Z) :=
        match radix_value radix 0 body with
        | Some v => Some (decimal_to_float false v 0)
        | None => Some nan
        end in
      if Ascii.eqb c "x" || Ascii.eqb c "X" then lit 16
      else if Ascii.eqb c "o" || Ascii.eqb c "O" then lit 8
      else if Ascii.eqb c "b" || Ascii.eqb c "B" then lit 2
      else None
  | _ => None
  end.

(** [StringToNumber]: the whole trimmed string must be a numeric literal. *)
Definition StringToNumber (s : string) : float :=
  let t := trim s in
  match t with
  | EmptyString => zero
  | _ =>
      match radix_literal t with
      | Some v => v
      | None =>
          match decimal_prefix t with
          | Some (v, EmptyString) => v
          | _ => nan
          end
      end
  end.

(** *** [Math.round] *)

(** The integer nearest to [x], ties towards +infinity; NaN, infinities
    and integers are returned unchanged, and a result of zero keeps the
    sign of [x]. *)
Definition Math_round (x : float) : float :=
  match Prim2SF x with
  | S754_finite s m e =>
      if 0 <=? e then x
      else
        let twice := if s then - (2 * Zpos m) else 2 * Zpos m in
        let n := Z.shiftr (twice + 2 ^ (- e)) (1 - e) in
        if n =? 0 then (if s then neg_zero else zero)
        else SF2Prim (binary_normalize prec emax n 0 false)
  | _ => x
  end.

(** *** [Number::toString] (radix 10) *)

(** [p/q < 10^n], for [p, q > 0]. *)
Definition below_pow10 (p q n : Z) : bool :=
  if 0 <=? n then p <? 10 ^ n * q else p * 10 ^ (- n) <? q.

Fixpoint decimal_exponent_from (fuel : nat) (p q n : Z) : Z :=
  match fuel with
  | O => n
  | S f => if below_pow10 p q n then n else decimal_exponent_from f p q (n + 1)
  end.

(** The [n] with [10^(n-1) <= p/q < 10^n]; for a positive binary64 value
    it lies between -323 and 309. *)
Definition decimal_exponent (p q : Z) : Z :=
  decimal_exponent_from 640 p q (-324).

(** A [k]-digit integer [s] such that [s * 10^(n-k)] is the Number [x],
    the one closest to [x = p/q] (the even one on a tie), if any. *)
Definition digits_candidate (x : float) (p q n k : Z) : option Z :=
  let '(a, b) :=
    if 0 <=? k - n then (p * 10 ^ (k - n), q) else (p, q * 10 ^ (n - k)) in
  let lo := a / b in
  let hi := lo + 1 in
  let ok (s : Z) := PrimFloat.eqb (decimal_to_float false s (n - k)) x in
  match ok lo, ok hi with
  | true, true =>
      let dl := a - lo * b in
      let dh := hi * b - a in
      if dl <? dh then Some lo
      else if dh <? dl then Some hi
      else if Z.even lo then Some lo else Some hi
  | true, false => Some lo
  | false, true => Some hi
  | false, false => None
  end.

(** The smallest number of digits [k] that identifies [x], with the
    digits.  Seventeen digits identify every binary64 value. *)
Fixpoint shortest_digits (fuel : nat) (x : float) (p q n k : Z) : Z * Z :=
  match fuel with
  | O => (p * 10 ^ (k - n) / q, k)
  | S f =>
      match digits_candidate x p q n k with
      | Some s => (s, k)
      | None => shortest_digits f x p q n (k + 1)
      end
  end.

Definition format_decimal (s k n : Z) : string :=
  let ds := string_of_Z s in
  if (k <=? n) && (n <=? 21) then
    ds ++ repeat_string "0" (Z.to_nat (n - k))
  else if (0 <? n) && (n <=? 21) then
    substring 0 (Z.to_nat n) ds ++ "." ++ substring (Z.to_nat n) (Z.to_nat (k - n)) ds
  else if (-6 <? n) && (n <=? 0) then
    "0." ++ repeat_string "0" (Z.to_nat (- n)) ++ ds
  else
    let e := n - 1 in
    let es := (if e <? 0 then "-" else "+") ++ string_of_Z (Z.abs e) in
    if k =? 1 then ds ++ "e" ++ es
    else substring 0 1 ds ++ "." ++ substring 1 (Z.to_nat (k - 1)) ds ++ "e" ++ es.

(** [String(x)] for a Number [x]. *)
Definition Number_toString (x : float) : string :=
  match Prim2SF x with
  | S754_nan => "NaN"
  | S754_zero _ => "0"
  | S754_infinity s => if s then "-Infinity" else "Infinity"
  | S754_finite sg m e =>
      let '(p, q) :=
        if 0 <=? e then (Zpos m * 2 ^ e, 1) else (Zpos m, 2 ^ (- e)) in
      let n := decimal_exponent p q in
      let '(s, k) := shortest_digits 17 (abs x) p q n 1 in
      let body :=
        if s =? 10 ^ k then format_decimal 1 1 (n + 1) else format_decimal s k n in
      if sg then "-" ++ body else body
  end.

(** *** Values and operators *)

(** The values the code computes with: [null], Numbers and strings. *)
Inductive js_value : Type :=
| VNull
| VNum (n : float)
| VStr (s : string).

Definition ToNumber (v : js_value) : float :=
  match v with
  | VNull => zero
  | VNum n => n
  | VStr s => StringToNumber s
  end.

Definition ToString (v : js_value) : string :=
  match v with
  | VNull => "null"
  | VNum n => Number_toString n
  | VStr s => s
  end.

(** [a + b]: concatenation as soon as one side is a string. *)
Definition js_add (a b : js_value) : js_value :=
  match a, b with
  | VStr _, _ | _, VStr _ => VStr (ToString a ++ ToString b)
  | _, _ => VNum (ToNumber a + ToNumber b)
  end.

Definition js_sub (a b : js_value) : js_value := VNum (ToNumber a - ToNumber b).
Definition js_mul (a b : js_value) : js_value := VNum (ToNumber a * ToNumber b).
Definition js_div (a b : js_value) : js_value := VNum (ToNumber a / ToNumber b).

(** [v === x] for a Number [x]: IEEE equality, false for other types. *)
Definition strict_eq_number (v : js_value) (x : float) : bool :=
  match v with
  | VNum n => PrimFloat.eqb n x
  | _ => false
  end.

(** [v === null]. *)
Definition is_null (v : js_value) : bool :=
  match v with
  | VNull => true
  | _ => false
  end.

(** [v === s] for a string [s]. *)
Definition strict_eq_string (v : js_value) (s : string) : bool :=
  match v with
  | VStr t => String.eqb t s
  | _ => false
  end.

End JS.

Import JS.

(** ** Expression evaluator ([tokenize], [evaluate]) *)

(** The four operator symbols of [new Set(['+', '-', '*', '/'])]. *)
Inductive operator : Type := Plus | Minus | Times | Divide.

Definition operator_eqb (a b : operator) : bool :=
  match a, b with
  | Plus, Plus | Minus, Minus | Times, Times | Divide, Divide => true
  | _, _ => false
  end.

Definition operator_of_char (c : ascii) : option operator :=
  if Ascii.eqb c "+" then Some Plus
  else if Ascii.eqb c "-" then Some Minus
  else if Ascii.eqb c "*" then Some Times
  else if Ascii.eqb c "/" then Some Divide
  else None.

(** [{ type: 'op', value }] and [{ type: 'num', value, isPercent }]. *)
Inductive token : Type :=
| TOp (value : operator)
| TNum (value : float) (isPercent : bool).

(** [/\d|\./.test(c)], which is also the condition of the inner loop
    [/\d/.test(c) || c === '.']. *)
Definition is_numeral_char (c : ascii) : bool :=
  is_digit c || Ascii.eqb c ".".

(** [if (str[i] === '%') { isPercent = true; i++; }] on the rest of the
    string after a numeral. *)
Definition percent_flag (rest : string) : bool :=
  match rest with
  | String "%" _ => true
  | _ => false
  end.

Definition after_percent (rest : string) : string :=
  match rest with
  | String "%" r => r
  | _ => rest
  end.

Lemma span_snd_length (p : ascii -> bool) (s : string) :
  (String.length (snd (span p s)) <= String.length s)%nat.
Proof.
  induction s as [|c r IH]; simpl; [lia|].
  destruct (p c); [|simpl; lia].
  destruct (span p r) as [a b]; simpl in *; lia.
Qed.

Lemma after_percent_length (s : string) :
  (String.length (after_percent s) <= String.length s)%nat.
Proof.
  destruct s as [|c r]; simpl; [lia|].
  destruct c as [[] [] [] [] [] [] [] []]; simpl; lia.
Qed.

(** The [while (i < str.length)] loop of [tokenize], on the part of the
    string from index [i] on and the tokens pushed so far.  [None] is the
    [return null] of an unparseable numeral. *)
Equations? tokenize_from (s : string) (tokens : list token)
  : option (list token) by wf (String.length s) lt :=
  tokenize_from EmptyString tokens := Some tokens;
  tokenize_from (String c r) tokens :=
    match operator_of_char c with
    | Some o => tokenize_from r (tokens ++ [TOp o])
    | None =>
        if is_numeral_char c then
          let num := String c (fst (span is_numeral_char r)) in
          let rest := snd (span is_numeral_char r) in
          let n := parseFloat num in
          if PrimFloat.is_nan n then None
          else tokenize_from (after_percent rest) (tokens ++ [TNum n (percent_flag rest)])
        else tokenize_from r tokens
    end.
Proof.
  all: simpl; try lia.
  subst rest.
  pose proof (span_snd_length is_numeral_char r).
  pose proof (after_percent_length (snd (span is_numeral_char r))).
  lia.
Qed.

Definition tokenize (str : string) : option (list token) :=
  tokenize_from str [].

(** The numerals [num] that the scan of [tokenize] accumulates, in order,
    whether or not they parse: the same scan, without the early exit. *)
Equations? numerals (s : string) : list string by wf (String.length s) lt :=
  numerals EmptyString := [];
  numerals (String c r) :=
    match operator_of_char c with
    | Some _ => numerals r
    | None =>
        if is_numeral_char c then
          let num := String c (fst (span is_numeral_char r)) in
          let rest := snd (span is_numeral_char r) in
          num :: numerals (after_percent rest)
        else numerals r
    end.
Proof.
  all: simpl; try lia.
  subst rest.
  pose proof (span_snd_length is_numeral_char r).
  pose proof (after_percent_length (snd (span is_numeral_char r))).
  lia.
Qed.

(** What a call of a function of the code ends with: a returned value, or
    an uncaught exception (reading a property of [undefined]). *)
Inductive outcome : Type :=
| Returns (v : js_value)
| Throws.

(** The return values of [evaluate]: [null] is "no result", the string
    ['Error'] the error marker. *)
Definition NoResult : js_value := VNull.
Definition ErrorMarker : js_value := VStr "Error".

(** An element of [nums]: [{ value, isPercent }]. *)
Record num : Type := { value : float; isPercent : bool }.

(** [tokens.filter(t => t.type === 'num').map(...)]. *)
Fixpoint token_nums (tokens : list token) : list num :=
  match tokens with
  | TNum v p :: r => {| value := v; isPercent := p |} :: token_nums r
  | TOp _ :: r => token_nums r
  | [] => []
  end.

(** [tokens.filter(t => t.type === 'op').map(t => t.value)]. *)
Fixpoint token_ops (tokens : list token) : list operator :=
  match tokens with
  | TOp o :: r => o :: token_ops r
  | TNum _ _ :: r => token_ops r
  | [] => []
  end.

(** [priority.includes(o)]. *)
Definition includes (priority : list operator) (o : operator) : bool :=
  existsb (operator_eqb o) priority.

(** [ops.findIndex(o => priority.includes(o))]; [None] stands for -1. *)
Fixpoint findIndex (priority : list operator) (ops : list operator) : option nat :=
  match ops with
  | o :: r =>
      if includes priority o then Some O
      else option_map S (findIndex priority r)
  | [] => None
  end.

(** [xs.splice(idx, count, ...items)] (the array after the call). *)
Definition splice {A : Type} (xs : list A) (idx count : nat) (items : list A) : list A :=
  firstn idx xs ++ items ++ skipn (idx + count) xs.

(** [n.isPercent ? n.value / 100 : n.value]. *)
Definition percent_adjusted (n : num) : float :=
  if isPercent n then (value n / 100)%float else value n.

(** The arithmetic of one loop iteration: [inl] is the [return 'Error']
    of a division by zero, [inr] the value assigned to [result]. *)
Definition apply_operator (op : operator) (a b : num) : outcome + float :=
  let aVal := percent_adjusted a in
  let bVal := percent_adjusted b in
  match op with
  | Times => inr (aVal * bVal)%float
  | Divide =>
      if PrimFloat.eqb bVal 0 then inl (Returns ErrorMarker)
      else inr (aVal / bVal)%float
  | Plus =>
      let right := if isPercent b then (aVal * (value b / 100))%float else bVal in
      inr (aVal + right)%float
  | Minus =>
      let right := if isPercent b then (aVal * (value b / 100))%float else bVal in
      inr (aVal - right)%float
  end.

(** One iteration of the [while] body on [(nums, ops)]: [inl] leaves the
    function, [inr] is the state after the two [splice] calls. *)
Definition reduce_step (priority : list operator) (nums : list num) (ops : list operator)
  : outcome + (list num * list operator) :=
  match findIndex priority ops with
  | None => inl Throws
  | Some idx =>
      match nth_error nums idx, nth_error nums (S idx), nth_error ops idx with
      | Some a, Some b, Some op =>
          match apply_operator op a b with
          | inl o => inl o
          | inr result =>
              inr (splice nums idx 2 [{| value := result; isPercent := false |}],
                   splice ops idx 1 [])
          end
      | _, _, _ => inl Throws
      end
  end.

Lemma reduce_step_shrinks priority nums ops nums' ops' :
  reduce_step priority nums ops = inr (nums', ops') ->
  (length ops' < length ops)%nat.
Proof.
  unfold reduce_step, splice.
  destruct (findIndex priority ops) as [idx|]; [|discriminate].
  destruct (nth_error nums idx); [|discriminate].
  destruct (nth_error nums (S idx)); [|discriminate].
  destruct (nth_error ops idx) eqn:Hop; [|discriminate].
  destruct (apply_operator _ _ _); [discriminate|].
  intros [= _ <-].
  assert (idx < length ops)%nat by (apply nth_error_Some; congruence).
  simpl. rewrite length_app, length_firstn, length_skipn. lia.
Qed.

(** A value together with the equation that names it, so that the
    termination argument below can use the result of a test. *)
Definition inspect {A : Type} (x : A) : {y : A | x = y} := exist _ x eq_refl.

(** [while (ops.some(o => priority.includes(o))) { ... }]. *)
Equations? reduce_pass (priority : list operator) (nums : list num) (ops : list operator)
  : outcome + (list num * list operator) by wf (length ops) lt :=
  reduce_pass priority nums ops with inspect (existsb (includes priority) ops) := {
    | exist _ false _ := inr (nums, ops)
    | exist _ true _ with inspect (reduce_step priority nums ops) := {
        | exist _ (inl o) _ := inl o
        | exist _ (inr (nums', ops')) Hstep := reduce_pass priority nums' ops' } }.
Proof.
  eapply reduce_step_shrinks; eassumption.
Qed.

(** [Math.round(x * 1e10) / 1e10]. *)
Definition round10 (x : float) : float :=
  (Math_round (x * 10000000000) / 10000000000)%float.

(** The last two statements of [evaluate], on the final [result]:
    ['Error'] when it is [Infinity], [-Infinity] or [NaN], otherwise the
    result rounded to ten decimal places. *)
Definition finalize (result : float) : outcome :=
  if PrimFloat.eqb result infinity
     || PrimFloat.eqb result neg_infinity
     || PrimFloat.is_nan result
  then Returns ErrorMarker
  else Returns (VNum (round10 result)).

(** [evaluate(expr)]. *)
Definition evaluate (expr : string) : outcome :=
  match tokenize expr with
  | None => Returns NoResult
  | Some [] => Returns NoResult
  | Some (TOp _ :: _) => Returns NoResult
  | Some [TNum v p] => Returns (VNum (if p then (v / 100)%float else v))
  | Some tokens =>
      let nums := token_nums tokens in
      let ops := token_ops tokens in
      if negb (Z.of_nat (length ops) =? Z.of_nat (length nums) - 1)
      then Returns NoResult
      else
        match reduce_pass [Times; Divide] nums ops with
        | inl o => o
        | inr (nums1, ops1) =>
            match reduce_pass [Plus; Minus] nums1 ops1 with
            | inl o => o
            | inr (nums2, _) =>
                match nums2 with
                | first :: _ => finalize (percent_adjusted first)
                | [] => Throws
                end
            end
        end
  end.

(** ** Diagram blocks ([resolveDiagramValue], [computeDiagramBlock],
       [getDiagramResults]) *)

(** An element of [diagramBlocks]: [{ id, left, op, right }]. *)
Record DiagramBlock : Type :=
  { id : Z; left : string; op : string; right : string }.

(** [t.match(/^#(\d+)$/)]: the digits of the capture group. *)
Definition ref_match (t : string) : option string :=
  match t with
  | String "#" ds =>
      match ds with
      | EmptyString => None
      | _ => if existsb_string (fun c => negb (is_digit c)) ds then None else Some ds
      end
  | _ => None
  end.

(** The class [0-9.\-%] kept by [t.replace(/[^0-9.\-%]/g, '')]. *)
Definition is_operand_char (c : ascii) : bool :=
  is_digit c || Ascii.eqb c "." || Ascii.eqb c "-" || Ascii.eqb c "%".

(** [resolveDiagramValue(str, results)]; [results[idx]] is [undefined]
    exactly when [idx] is not below the length of [results]. *)
Definition resolveDiagramValue (str : string) (results : list js_value) : js_value :=
  match str with
  | EmptyString => VNull
  | _ =>
      let t := trim str in
      match ref_match t with
      | Some digits =>
          let idx := parseInt_digits digits - 1 in
          if 0 <=? idx then
            match nth_error results (Z.to_nat idx) with
            | Some v => if is_null v then VNull else v
            | None => VNull
            end
          else VNull
      | None =>
          let n := parseFloat (keep is_operand_char t) in
          if PrimFloat.is_nan n then VNull
          else VNum (if ends_with "%" t then (n / 100)%float else n)
      end
  end.

(** [computeDiagramBlock(block, results)]. *)
Definition computeDiagramBlock (block : DiagramBlock) (results : list js_value) : js_value :=
  let l := resolveDiagramValue (left block) results in
  let r := resolveDiagramValue (right block) results in
  if is_null l || is_null r then VNull
  else
    let o := trim (match op block with EmptyString => "+" | s => s end) in
    if String.eqb o "*" then js_mul l r
    else if String.eqb o "/" then
      if strict_eq_number r 0 then ErrorMarker else js_div l r
    else if String.eqb o "+" then js_add l r
    else if String.eqb o "-" then js_sub l r
    else VNull.

(** The value pushed on [results] for a computed [value]; a Number is
    pushed as [Math.round(value * 1e10) / 1e10]. *)
Definition stored_result (v : js_value) : js_value :=
  if negb (is_null v) && negb (strict_eq_string v "Error") then
    match v with
    | VNum n => VNum (round10 n)
    | _ => v
    end
  else v.

(** The [for] loop of [getDiagramResults] on the blocks from index [i]
    on, with the [results] pushed so far. *)
Fixpoint getDiagramResults_from (blocks : list DiagramBlock) (results : list js_value)
  : list js_value :=
  match blocks with
  | block :: rest =>
      getDiagramResults_from rest
        (results ++ [stored_result (computeDiagramBlock block results)])
  | [] => results
  end.

(** [getDiagramResults()], with the module-level [diagramBlocks] as its
    argument. *)
Definition getDiagramResults (diagramBlocks : list DiagramBlock) : list js_value :=
  getDiagramResults_from diagramBlocks [].

(** ** Function grapher ([evaluateWithX]) *)

Definition is_x (c : ascii) : bool := Ascii.eqb c "x" || Ascii.eqb c "X".

(** [s.replace(/(\d)x/gi, '$1*' + xStr)]. *)
Fixpoint replace_digit_x (xStr : string) (s : string) : string :=
  match s with
  | String d r =>
      match r with
      | String c r' =>
          if is_digit d && is_x c
          then String d ("*" ++ xStr ++ replace_digit_x xStr r')
          else String d (replace_digit_x xStr r)
      | EmptyString => String d EmptyString
      end
  | EmptyString => EmptyString
  end.

(** [s.replace(/x(\d)/gi, xStr + '*$1')]. *)
Fixpoint replace_x_digit (xStr : string) (s : string) : string :=
  match s with
  | String c r =>
      match r with
      | String d r' =>
          if is_x c && is_digit d
          then xStr ++ "*" ++ String d (replace_x_digit xStr r')
          else String c (replace_x_digit xStr r)
      | EmptyString => String c EmptyString
      end
  | EmptyString => EmptyString
  end.

(** [s.replace(/x/gi, xStr)]. *)
Fixpoint replace_x (xStr : string) (s : string) : string :=
  match s with
  | String c r =>
      if is_x c then xStr ++ replace_x xStr r else String c (replace_x xStr r)
  | EmptyString => EmptyString
  end.

(** The arithmetic alphabet [0-9+\-*/.%]. *)
Definition is_arithmetic_char (c : ascii) : bool :=
  is_digit c || Ascii.eqb c "+" || Ascii.eqb c "-" || Ascii.eqb c "*"
  || Ascii.eqb c "/" || Ascii.eqb c "." || Ascii.eqb c "%".

(** The string [safe] that [evaluateWithX] hands to [evaluate]. *)
Definition safe_expression (expr : string) (x : float) : string :=
  let cleaned := keep (fun c => negb (is_white_space c)) (trim expr) in
  let xStr := Number_toString x in
  let cleaned := replace_x_digit xStr (replace_digit_x xStr cleaned) in
  let cleaned := replace_x xStr cleaned in
  keep is_arithmetic_char cleaned.

(** [result === 'Error' ? null : result] on the outcome of a call. *)
Definition error_to_null (o : outcome) : outcome :=
  match o with
  | Returns v => if strict_eq_string v "Error" then Returns VNull else Returns v
  | Throws => Throws
  end.

(** [evaluateWithX(expr, x)]. *)
Definition evaluateWithX (expr : string) (x : float) : outcome :=
  match expr with
  | EmptyString => Returns VNull
  | _ =>
      let safe := safe_expression expr x in
      match safe with
      | EmptyString => Returns VNull
      | _ =>
          if negb (existsb_string is_digit safe) then Returns VNull
          else error_to_null (evaluate safe)
      end
  end.

(** The substitution as the specification words it: every occurrence of
    the variable becomes the numeral, with a [*] between it and a digit
    next to it on either side ([2x] is [2*x], [x2] is [x*2]).
    [after_digit] tells whether the code unit before [s] is a digit. *)
Fixpoint substitute_variable (xStr : string) (after_digit : bool) (s : string) : string :=
  match s with
  | String c r =>
      if is_x c then
        (if after_digit then "*" else "") ++ xStr
        ++ (match r with
            | String d _ => if is_digit d then "*" else ""
            | EmptyString => ""
            end)
        ++ substitute_variable xStr false r
      else String c (substitute_variable xStr (is_digit c) r)
  | EmptyString => EmptyString
  end.

(** [evaluateWithSubstitution] of the specification: substitute, strip
    what is outside the arithmetic alphabet, evaluate, and report the
    error marker as no result. *)
Definition evaluateWithSubstitution_spec (expr : string) (x : float) : outcome :=
  let cleaned := keep (fun c => negb (is_white_space c)) (trim expr) in
  error_to_null
    (evaluate (keep is_arithmetic_char
                 (substitute_variable (Number_toString x) false cleaned))).

(** ** Keypad calculator ([updateDisplay], [handleInput]) *)

Definition MAX_DISPLAY_LEN : nat := 24.

(** The calculator variables [display], [pendingOp], [pendingValue]
    ([None] is [null]) and the text shown in the display element,
    [displayEl.textContent]. *)
Record Calculator : Type :=
  { display : string;
    pendingOp : option string;
    pendingValue : option string;
    displayText : string }.

(** [updateDisplay(value)]. *)
Definition updateDisplay (v : js_value) (st : Calculator) : Calculator :=
  let d := ToString v in
  let d := if (MAX_DISPLAY_LEN <? String.length d)%nat
           then substring 0 MAX_DISPLAY_LEN d else d in
  {| display := d;
     pendingOp := pendingOp st;
     pendingValue := pendingValue st;
     displayText := d |}.

(** [s.includes(c)] for a one-character [c]. *)
Definition includes_char (c : ascii) (s : string) : bool :=
  existsb_string (Ascii.eqb c) s.

(** The class [[\+\-\*\/]]. *)
Definition is_operator_char (c : ascii) : bool :=
  match operator_of_char c with
  | Some _ => true
  | None => false
  end.

(** [s.split(/[\+\-\*\/]/).pop()]: what follows the last operator
    character; [cur] is the segment read so far. *)
Fixpoint last_segment_from (cur : string) (s : string) : string :=
  match s with
  | String c r =>
      if is_operator_char c then last_segment_from EmptyString r
      else last_segment_from (cur ++ String c EmptyString) r
  | EmptyString => cur
  end.

Definition last_segment (s : string) : string := last_segment_from EmptyString s.

(** [/[\+\-\*\/]$/.test(s)]. *)
Fixpoint ends_with_operator (s : string) : bool :=
  match s with
  | String c EmptyString => is_operator_char c
  | String _ r => ends_with_operator r
  | EmptyString => false
  end.

(** [['+', '-', '*', '/'].includes(value)]. *)
Definition is_operator_key (value : string) : bool :=
  String.eqb value "+" || String.eqb value "-"
  || String.eqb value "*" || String.eqb value "/".

Definition set_display (d : string) (st : Calculator) : Calculator :=
  {| display := d;
     pendingOp := pendingOp st;
     pendingValue := pendingValue st;
     displayText := displayText st |}.

Definition set_pending (o v : option string) (st : Calculator) : Calculator :=
  {| display := display st;
     pendingOp := o;
     pendingValue := v;
     displayText := displayText st |}.

(** [if (display.length <= MAX_DISPLAY_LEN) updateDisplay(display)]. *)
Definition show_if_short (st : Calculator) : Calculator :=
  if (String.length (display st) <=? MAX_DISPLAY_LEN)%nat
  then updateDisplay (VStr (display st)) st
  else st.

(** [handleInput(value)] on the calculator variables; [None] is an
    exception out of [evaluate]. *)
Definition handleInput (value : string) (st : Calculator) : option Calculator :=
  if String.eqb value "C" then
    Some (updateDisplay (VStr "0") (set_pending None None (set_display "0" st)))
  else
    let st :=
      if String.eqb (display st) "Error"
      then set_pending None None (set_display "0" st)
      else st in
    if String.eqb value "=" then
      match pendingOp st, pendingValue st, negb (String.eqb (display st) "") with
      | Some po, Some pv, true =>
          match evaluate (pv ++ po ++ display st) with
          | Throws => None
          | Returns result =>
              if is_null result then Some st
              else
                let st := set_pending None None (set_display (ToString result) st) in
                Some (updateDisplay (VStr (display st)) st)
          end
      | _, _, _ =>
          match evaluate (display st) with
          | Throws => None
          | Returns result =>
              let st := if is_null result then st
                        else set_display (ToString result) st in
              Some (updateDisplay (VStr (display st)) st)
          end
      end
    else if String.eqb value "%" then
      let current := parseFloat (display st) in
      if PrimFloat.is_nan current then Some st
      else
        match pendingValue st, pendingOp st with
        | Some pv, Some po =>
            let base := parseFloat pv in
            if PrimFloat.is_nan base then Some st
            else
              let next :=
                if String.eqb po "+" || String.eqb po "-"
                then (base * current / 100)%float
                else (current / 100)%float in
              Some (updateDisplay (VNum (round10 next)) st)
        | _, _ => Some (updateDisplay (VNum (round10 (current / 100)%float)) st)
        end
    else if is_operator_key value then
      let hold (st : Calculator) :=
        let pv := if String.eqb (display st) "0" && negb (includes_char "." (display st))
                  then "0" else display st in
        let st := set_display "0" (set_pending (Some value) (Some pv) st) in
        Some (updateDisplay (VStr (display st)) st) in
      match pendingOp st, pendingValue st,
            negb (String.eqb (display st) "") && negb (String.eqb (display st) "0") with
      | Some po, Some pv, true =>
          match evaluate (pv ++ po ++ display st) with
          | Throws => None
          | Returns result =>
              if negb (is_null result) && negb (strict_eq_string result "Error") then
                let st := set_display "0"
                            (set_pending (Some value) (Some (ToString result)) st) in
                Some (updateDisplay (VStr (display st)) st)
              else hold st
          end
      | _, _, _ => hold st
      end
    else if String.eqb value "." then
      let lastNum := last_segment (display st) in
      if negb (String.eqb lastNum "") && includes_char "." lastNum then Some st
      else
        let d :=
          if String.eqb (display st) "0" || ends_with_operator (display st)
          then (if String.eqb (display st) "0" then "0." else display st ++ "0.")
          else display st ++ "." in
        Some (show_if_short (set_display d st))
    else if existsb_string is_digit value then
      let d :=
        if String.eqb (display st) "0" && negb (String.eqb value "0") then value
        else if negb (String.eqb (display st) "0") then display st ++ value
        else if String.eqb value "0" then "0"
        else display st in
      Some (show_if_short (set_display d st))
    else Some st.

(** The keys pressed one after the other. *)
Fixpoint pressKeys (keys : list string) (st : Calculator) : option Calculator :=
  match keys with
  | key :: rest =>
      match handleInput key st with
      | Some st' => pressKeys rest st'
      | None => None
      end
  | [] => Some st
  end.

(** ** Notepad ([renderNotepad]) *)

(** [line.split('=')[0]]: the text before the first [=]. *)
Fixpoint before_equals (s : string) : string :=
  match s with
  | String c r => if Ascii.eqb c "=" then EmptyString else String c (before_equals r)
  | EmptyString => EmptyString
  end.

(** [text.split(/\r?\n/)]; [cur] is the line read so far. *)
Fixpoint split_lines_from (cur : string) (s : string) : list string :=
  match s with
  | String c r =>
      if Ascii.eqb c "010" then cur :: split_lines_from EmptyString r
      else
        match r with
        | String d r' =>
            if Ascii.eqb c "013" && Ascii.eqb d "010"
            then cur :: split_lines_from EmptyString r'
            else split_lines_from (cur ++ String c EmptyString) r
        | EmptyString => [cur ++ String c EmptyString]
        end
  | EmptyString => [cur]
  end.

Definition split_lines (text : string) : list string :=
  split_lines_from EmptyString text.

(** [lines.join('\n')]. *)
Fixpoint join_lines (lines : list string) : string :=
  match lines with
  | [] => EmptyString
  | [l] => l
  | l :: rest => l ++ String "010" (join_lines rest)
  end.

Section Notepad.

(** The separator ['  →  '] put between a line and its result.  Its
    arrow, U+2192, is not one of the code units modelled; the string is
    a parameter. *)
Variable arrow : string.

(** The callback of [lines.map] in [renderNotepad]: one rendered line;
    [None] is an exception out of [evaluate]. *)
Definition renderNotepadLine (line : string) : option string :=
  if String.eqb (trim line) "" then Some EmptyString
  else if negb (includes_char "=" line) then Some line
  else
    let exprRaw := trim (before_equals line) in
    if String.eqb exprRaw "" then Some line
    else
      let expr := keep is_arithmetic_char exprRaw in
      if String.eqb expr "" || negb (existsb_string is_digit expr) then Some line
      else
        match evaluate expr with
        | Throws => None
        | Returns result =>
            if is_null result then Some line
            else if strict_eq_string result "Error"
                 then Some (line ++ arrow ++ "[Error]")
                 else Some (line ++ arrow ++ ToString result)
        end.

Fixpoint renderNotepadLines (lines : list string) : option (list string) :=
  match lines with
  | line :: rest =>
      match renderNotepadLine line, renderNotepadLines rest with
      | Some l, Some ls => Some (l :: ls)
      | _, _ => None
      end
  | [] => Some []
  end.

(** [renderNotepad()], from the text of the input to the text of the
    output. *)
Definition renderNotepad (text : string) : option string :=
  option_map join_lines (renderNotepadLines (split_lines text)).

End Notepad.

(** ** The diagram tool ([addDiagramBlock], [syncBlock], the remove
       button, [runDiagramWalkthrough], [drawDiagramLinks]) *)

(** The variables [diagramBlockId] and [diagramBlocks].  The counter is
    an exact integer (it counts blocks created, far below 2^53). *)
Record DiagramTool : Type :=
  { diagramBlockId : Z; diagramBlocks : list DiagramBlock }.

(** [addDiagramBlock()]. *)
Definition addDiagramBlock (st : DiagramTool) : DiagramTool :=
  let newId := diagramBlockId st + 1 in
  let empty := Nat.eqb (length (diagramBlocks st)) 0 in
  {| diagramBlockId := newId;
     diagramBlocks :=
       diagramBlocks st
       ++ [ {| id := newId;
               left := if empty then "5" else "#1";
               op := "*";
               right := if empty then "20" else "10" |} ] |}.

(** [xs[index] = x] on an index in range. *)
Fixpoint set_nth {A : Type} (index : nat) (x : A) (xs : list A) : list A :=
  match xs, index with
  | [], _ => []
  | _ :: r, O => x :: r
  | y :: r, S i => y :: set_nth i x r
  end.

(** [syncBlock()] of the card rendered at [index], with the texts of its
    three inputs: the block object is updated in place. *)
Definition syncBlock (index : nat) (leftValue opValue rightValue : string)
  (st : DiagramTool) : DiagramTool :=
  match nth_error (diagramBlocks st) index with
  | Some block =>
      {| diagramBlockId := diagramBlockId st;
         diagramBlocks :=
           set_nth index
             {| id := id block;
                left := leftValue;
                op := match trim opValue with
                      | EmptyString => "+"
                      | o => o
                      end;
                right := rightValue |}
             (diagramBlocks st) |}
  | None => st
  end.

(** The click handler of the remove button of the card rendered at
    [index]: [diagramBlocks.filter((b) => b.id !== block.id)]. *)
Definition removeBlock (index : nat) (st : DiagramTool) : DiagramTool :=
  match nth_error (diagramBlocks st) index with
  | Some block =>
      {| diagramBlockId := diagramBlockId st;
         diagramBlocks := filter (fun b => negb (id b =? id block)) (diagramBlocks st) |}
  | None => st
  end.

(** [runDiagramWalkthrough()]. *)
Definition runDiagramWalkthrough (st : DiagramTool) : DiagramTool :=
  let n := diagramBlockId st in
  {| diagramBlockId := n + 3;
     diagramBlocks :=
       [ {| id := n + 1; left := "5"; op := "*"; right := "20" |};
         {| id := n + 2; left := "#1"; op := "+"; right := "30" |};
         {| id := n + 3; left := "#2"; op := "-"; right := "15" |} ] |}.

(** What the user can do in the diagram tool. *)
Inductive DiagramEvent : Type :=
| AddBlock
| SyncBlock (index : nat) (leftValue opValue rightValue : string)
| RemoveBlock (index : nat)
| Walkthrough.

Definition diagramStep (e : DiagramEvent) (st : DiagramTool) : DiagramTool :=
  match e with
  | AddBlock => addDiagramBlock st
  | SyncBlock i l o r => syncBlock i l o r st
  | RemoveBlock i => removeBlock i st
  | Walkthrough => runDiagramWalkthrough st
  end.

Definition diagramRun (events : list DiagramEvent) (st : DiagramTool) : DiagramTool :=
  fold_left (fun s e => diagramStep e s) events st.

(** The tool when the page is loaded: [diagramBlockId = 0],
    [diagramBlocks = []]. *)
Definition diagramInitial : DiagramTool :=
  {| diagramBlockId := 0; diagramBlocks := [] |}.

(** The test of [drawDiagramLinks] on one slot of the card at
    [targetIndex], among [count] cards: the index of the card from whose
    result a link is drawn to the slot, if any.  (The geometry of the
    path is left out; every card has its result and slot elements.) *)
Definition diagramLinkSource (count targetIndex : nat) (slot : string) : option nat :=
  match ref_match (trim slot) with
  | Some digits =>
      let srcIndex := parseInt_digits digits - 1 in
      if (srcIndex <? 0) || (Z.of_nat count <=? srcIndex)
         || (Z.of_nat targetIndex <=? srcIndex)
      then None
      else Some (Z.to_nat srcIndex)
  | None => None
  end.

(** ** Predicates of the statements on the keypad and the diagram tool *)

(** The operator and the value held are set and cleared together, the
    text shown has at most 24 characters, and [display] is not empty. *)
Definition calculator_ok (st : Calculator) : Prop :=
  (pendingOp st = None <-> pendingValue st = None)
  /\ (String.length (displayText st) <= MAX_DISPLAY_LEN)%nat
  /\ display st <> "".

(** The key of one character. *)
Definition key (c : ascii) : string := String c EmptyString.

(** The keys that spell [s]. *)
Definition keys_of (s : string) : list string := map key (list_ascii_of_string s).

(** A numeral as the keypad builds it: ["0"], or digits that do not
    start with a zero. *)
Definition plain_numeral (s : string) : bool :=
  match s with
  | EmptyString => false
  | String c r =>
      is_digit c && negb (existsb_string (fun d => negb (is_digit d)) r)
      && (negb (Ascii.eqb c "0") || String.eqb r "")
  end.

(** What [updateDisplay] keeps of a string: its first 24 characters. *)
Definition clipped (s : string) : string :=
  if (MAX_DISPLAY_LEN <? String.length s)%nat then substring 0 MAX_DISPLAY_LEN s else s.

(** The identifiers increase along the list and none exceeds the
    counter. *)
Definition diagram_ids_ok (st : DiagramTool) : Prop :=
  StronglySorted Z.lt (map id (diagramBlocks st))
  /\ Forall (fun b => id b <= diagramBlockId st) (diagramBlocks st).

(** ** Circuit builder ([getCellType], [hasPathFromBatteryToBulb], the
       Simulate button) *)

Module Circuit.

Definition CIRCUIT_SIZE : Z := 6.

(** [circuitCells]: the [dataset.type] of the cell elements, row by
    row. *)
Definition Cells : Type := list (list string).

(** A position [{ r, c }]; the coordinates are integers. *)
Definition Pos : Type := (Z * Z)%type.

(** [r < 0 || r >= CIRCUIT_SIZE || c < 0 || c >= CIRCUIT_SIZE]. *)
Definition outside (r c : Z) : bool :=
  (r <? 0) || (CIRCUIT_SIZE <=? r) || (c <? 0) || (CIRCUIT_SIZE <=? c).

(** [getCellType(r, c)]. *)
Definition getCellType (circuitCells : Cells) (r c : Z) : string :=
  if outside r c then ""
  else
    match nth_error circuitCells (Z.to_nat r) with
    | Some row =>
        match nth_error row (Z.to_nat c) with
        | Some type => type
        | None => ""
        end
    | None => ""
    end.

(** [type && type !== 'erase']. *)
Definition is_component (type : string) : bool :=
  negb (String.eqb type "") && negb (String.eqb type "erase").

(** [String(n)] for an integer [n]. *)
Definition integer_string (n : Z) : string :=
  if n <? 0 then String "-" (string_of_Z (- n)) else string_of_Z n.

(** [key(r, c)]: [r + ',' + c]. *)
Definition key (r c : Z) : string :=
  integer_string r ++ String "," (integer_string c).

(** [visited.has(k)], the set [visited] as the list of its elements. *)
Definition has (k : string) (visited : list string) : bool :=
  existsb (String.eqb k) visited.

(** The callback of [forEach] on one neighbour [[nr, nc]]; the top of
    the stack is the head of the list. *)
Definition push_neighbour (circuitCells : Cells) (visited : list string)
  (stack : list Pos) (n : Pos) : list Pos :=
  let (nr, nc) := n in
  if outside nr nc then stack
  else
    let ntype := getCellType circuitCells nr nc in
    if is_component ntype && negb (has (key nr nc) visited)
    then n :: stack
    else stack.

(** The four neighbours, in the order of the array literal. *)
Definition neighbours (r c : Z) : list Pos :=
  [(r - 1, c); (r + 1, c); (r, c - 1); (r, c + 1)].

(** The [while] loop of [hasPathFromBatteryToBulb]; one unit of [fuel]
    for each iteration. *)
Fixpoint search (fuel : nat) (circuitCells : Cells) (bulbPos : Pos)
  (stack : list Pos) (visited : list string) : option bool :=
  match fuel with
  | O => None
  | S fuel =>
      match stack with
      | [] => Some false
      | (r, c) :: stack =>
          if (r =? fst bulbPos) && (c =? snd bulbPos) then Some true
          else if has (key r c) visited
          then search fuel circuitCells bulbPos stack visited
          else
            let visited := key r c :: visited in
            let type := getCellType circuitCells r c in
            if negb (is_component type)
            then search fuel circuitCells bulbPos stack visited
            else
              search fuel circuitCells bulbPos
                (fold_left (push_neighbour circuitCells visited) (neighbours r c) stack)
                visited
      end
  end.

(** [hasPathFromBatteryToBulb(batteryPos, bulbPos)]. *)
Definition hasPathFromBatteryToBulb (fuel : nat) (circuitCells : Cells)
  (batteryPos bulbPos : Pos) : option bool :=
  search fuel circuitCells bulbPos [batteryPos] [].

(** The values of [r] and of [c] in the loops
    [for (let r = 0; r < CIRCUIT_SIZE; r++)]. *)
Definition indices : list Z := map Z.of_nat (seq 0 (Z.to_nat CIRCUIT_SIZE)).

(** The positions in the order in which the two nested loops visit
    them. *)
Definition grid_positions : list Pos :=
  flat_map (fun r => map (fun c => (r, c)) indices) indices.

(** The body of the inner loop of the Simulate handler, on
    [(batteryPos, bulbPos)] ([None] is [null]). *)
Definition scan_cell (circuitCells : Cells) (found : option Pos * option Pos)
  (p : Pos) : option Pos * option Pos :=
  let type := getCellType circuitCells (fst p) (snd p) in
  (if String.eqb type "battery" then Some p else fst found,
   if String.eqb type "bulb" then Some p else snd found).

(** What the Simulate button writes in the result element. *)
Inductive CircuitResult : Type :=
| PlaceBattery
| PlaceBulb
| CircuitClosed
| BulbDoesNotLight.

(** The click handler of the Simulate button. *)
Definition simulate (fuel : nat) (circuitCells : Cells) : option CircuitResult :=
  match fold_left (scan_cell circuitCells) grid_positions (None, None) with
  | (None, _) => Some PlaceBattery
  | (Some _, None) => Some PlaceBulb
  | (Some batteryPos, Some bulbPos) =>
      match hasPathFromBatteryToBulb fuel circuitCells batteryPos bulbPos with
      | Some true => Some CircuitClosed
      | Some false => Some BulbDoesNotLight
      | None => None
      end
  end.

(** Two positions next to each other in a row or in a column. *)
Definition adjacent (a b : Pos) : Prop :=
  Z.abs (fst a - fst b) + Z.abs (snd a - snd b) = 1.

(** A cell of the grid that holds a component. *)
Definition occupied (circuitCells : Cells) (p : Pos) : Prop :=
  is_component (getCellType circuitCells (fst p) (snd p)) = true.

(** A chain of adjacent cells holding components, from a position to
    another. *)
Inductive connected (circuitCells : Cells) : Pos -> Pos -> Prop :=
| connected_here p : connected circuitCells p p
| connected_step p q t :
    occupied circuitCells p -> adjacent p q -> occupied circuitCells q ->
    connected circuitCells q t -> connected circuitCells p t.

End Circuit.

(** The key of a position. *)
Definition keyp (p : Circuit.Pos) : string := Circuit.key (fst p) (snd p).

(** The positions of the grid whose key is not in [visited]. *)
Definition unvisited (visited : list string) : list Circuit.Pos :=
  filter (fun p => negb (Circuit.has (keyp p) visited)) Circuit.grid_positions.

(** What holds of the stack and of the visited set before each
    iteration of the search from [start]: the stack holds positions
    connected to [start]; the bulb has not been visited; every neighbour
    of a visited component that holds a component is visited or on the
    stack; and so is [start]. *)
Definition search_invariant (cells : Circuit.Cells) (start bulb : Circuit.Pos)
  (stack : list Circuit.Pos) (visited : list string) : Prop :=
  (forall p, In p stack -> Circuit.connected cells start p)
  /\ ~ In (keyp bulb) visited
  /\ (forall p q, In (keyp p) visited -> Circuit.occupied cells p ->
                  Circuit.adjacent p q -> Circuit.occupied cells q ->
                  In (keyp q) visited \/ In q stack)
  /\ (In (keyp start) visited \/ In start stack).

(** A position of the grid whose cell holds [type]. *)
Definition holds (cells : Circuit.Cells) (type : string) (p : Circuit.Pos) : Prop :=
  In p Circuit.grid_positions
  /\ Circuit.getCellType cells (fst p) (snd p) = type.

(** * Properties *)

(** ** The loops, unfolded once *)

Lemma reduce_pass_loop priority nums ops :
  reduce_pass priority nums ops =
  if existsb (includes priority) ops then
    match reduce_step priority nums ops with
    | inl o => inl o
    | inr (nums', ops') => reduce_pass priority nums' ops'
    end
  else inr (nums, ops).
Proof.
  funelim (reduce_pass priority nums ops).
  - now rewrite e.
  - now rewrite e, e0.
  - now rewrite e, Hstep.
Qed.

(** Tokens are only ever pushed: the result extends the tokens so far. *)
Lemma tokenize_from_extends s acc tokens :
  tokenize_from s acc = Some tokens -> exists pushed, tokens = (acc ++ pushed)%list.
Proof.
  funelim (tokenize_from s acc).
  - intros [= <-]. exists []. now rewrite app_nil_r.
  - clear Heqcall. destruct (operator_of_char c) as [o|].
    + intros Ht. destruct (H o _ Ht) as [l ->].
      exists (TOp o :: l). now rewrite <- app_assoc.
    + destruct (is_numeral_char c).
      * destruct (is_nan _); [discriminate|].
        intros Ht. destruct (H0 _ Ht) as [l ->].
        eexists. now rewrite <- app_assoc.
      * apply H1.
Qed.

(** ** C9: a leading minus sign *)

(** C9: for every input string that begins with ['-'], [evaluate] returns
    no result: the minus sign is tokenized as an operator, never as a
    numeric sign, so either tokenization fails or the first token is not
    a number (e.g. [evaluate("-5")] is [null]). *)
Theorem C9_leading_minus_no_result (s : string) :
  evaluate (String "-" s) = Returns NoResult.
Proof.
  unfold evaluate, tokenize.
  rewrite tokenize_from_equation_2. cbn [operator_of_char Ascii.eqb Bool.eqb].
  simpl app.
  destruct (tokenize_from s [TOp Minus]) as [tokens|] eqn:Ht; [|reflexivity].
  destruct (tokenize_from_extends _ _ _ Ht) as [l ->].
  reflexivity.
Qed.

(** ** Facts about [findIndex] and [splice] *)

Lemma findIndex_leftmost priority pre o post :
  forallb (fun x => negb (includes priority x)) pre = true ->
  includes priority o = true ->
  findIndex priority (pre ++ o :: post) = Some (length pre).
Proof.
  induction pre as [|x pre IH]; simpl; intros Hpre Ho.
  - now rewrite Ho.
  - apply andb_true_iff in Hpre as [Hx Hpre].
    apply negb_true_iff in Hx. rewrite Hx, IH by assumption. reflexivity.
Qed.

Lemma findIndex_Some priority ops idx :
  findIndex priority ops = Some idx ->
  exists pre o post,
    ops = (pre ++ o :: post)%list /\ length pre = idx /\
    forallb (fun x => negb (includes priority x)) pre = true /\
    includes priority o = true.
Proof.
  revert idx. induction ops as [|x ops IH]; simpl; intros idx; [discriminate|].
  destruct (includes priority x) eqn:Hx.
  - intros [= <-]. now exists [], x, ops.
  - destruct (findIndex priority ops) as [j|]; [|discriminate].
    intros [= <-]. destruct (IH j eq_refl) as (pre & o & post & -> & <- & Hpre & Ho).
    exists (x :: pre), o, post. simpl. now rewrite Hx, Hpre.
Qed.

Lemma findIndex_None priority ops :
  findIndex priority ops = None -> existsb (includes priority) ops = false.
Proof.
  induction ops as [|x ops IH]; simpl; [reflexivity|].
  destruct (includes priority x); [discriminate|].
  destruct (findIndex priority ops); [discriminate|]. auto.
Qed.

Lemma splice_remove_one {A} (pre post : list A) (x : A) :
  splice (pre ++ x :: post) (length pre) 1 [] = (pre ++ post)%list.
Proof.
  unfold splice. simpl.
  rewrite firstn_app, firstn_all, Nat.sub_diag, firstn_O, app_nil_r.
  rewrite skipn_app, skipn_all2 by lia.
  replace (length pre + 1 - length pre)%nat with 1%nat by lia.
  reflexivity.
Qed.

Lemma nth_error_middle {A} (pre post : list A) (x : A) :
  nth_error (pre ++ x :: post) (length pre) = Some x.
Proof.
  rewrite nth_error_app2, Nat.sub_diag by lia. reflexivity.
Qed.

Lemma existsb_middle priority pre o post :
  includes priority o = true ->
  existsb (includes priority) (pre ++ o :: post) = true.
Proof.
  intros Ho. rewrite existsb_app. simpl. rewrite Ho. apply orb_true_r.
Qed.

Lemma filter_drop_middle priority pre o post :
  includes priority o = true ->
  filter (fun x => negb (includes priority x)) (pre ++ o :: post)
  = filter (fun x => negb (includes priority x)) (pre ++ post).
Proof.
  intros Ho. rewrite !filter_app. simpl. now rewrite Ho.
Qed.

Lemma filter_nothing_to_drop priority ops :
  existsb (includes priority) ops = false ->
  filter (fun x => negb (includes priority x)) ops = ops.
Proof.
  induction ops as [|x ops IH]; simpl; [reflexivity|].
  intros H. apply orb_false_iff in H as [Hx Hops].
  rewrite Hx. simpl. now rewrite IH.
Qed.

(** One iteration reduces the leftmost operator of the pass. *)
Lemma reduce_step_leftmost priority pre o post nums a b :
  forallb (fun x => negb (includes priority x)) pre = true ->
  includes priority o = true ->
  nth_error nums (length pre) = Some a ->
  nth_error nums (S (length pre)) = Some b ->
  reduce_step priority nums (pre ++ o :: post) =
  match apply_operator o a b with
  | inl r => inl r
  | inr v =>
      inr ((firstn (length pre) nums
              ++ {| value := v; isPercent := false |} :: skipn (length pre + 2) nums)%list,
           (pre ++ post)%list)
  end.
Proof.
  intros Hpre Ho Ha Hb. unfold reduce_step.
  rewrite findIndex_leftmost, Ha, Hb, nth_error_middle by assumption.
  destruct (apply_operator o a b); [reflexivity|].
  now rewrite splice_remove_one.
Qed.

(** Induction along the iterations of a pass. *)
Lemma reduce_pass_induction priority
  (P : list num -> list operator -> outcome + list num * list operator -> Prop) :
  (forall nums ops,
      existsb (includes priority) ops = false -> P nums ops (inr (nums, ops))) ->
  (forall nums ops o,
      existsb (includes priority) ops = true ->
      reduce_step priority nums ops = inl o -> P nums ops (inl o)) ->
  (forall nums ops nums' ops',
      existsb (includes priority) ops = true ->
      reduce_step priority nums ops = inr (nums', ops') ->
      P nums' ops' (reduce_pass priority nums' ops') ->
      P nums ops (reduce_pass priority nums' ops')) ->
  forall nums ops, P nums ops (reduce_pass priority nums ops).
Proof.
  intros Hstop Hexit Hnext nums ops.
  remember (length ops) as n eqn:Hn.
  revert nums ops Hn.
  induction n as [n IH] using lt_wf_ind. intros nums ops ->.
  rewrite reduce_pass_loop.
  destruct (existsb (includes priority) ops) eqn:Hsome; [|now apply Hstop].
  destruct (reduce_step priority nums ops) as [o|[nums' ops']] eqn:Hstep.
  - now apply Hexit.
  - apply Hnext; try assumption.
    eapply IH; [|reflexivity]. eapply reduce_step_shrinks; eassumption.
Qed.

(** A pass that runs to its end has removed exactly its own operators. *)
Lemma reduce_pass_leaves_others priority nums ops nums' ops' :
  reduce_pass priority nums ops = inr (nums', ops') ->
  ops' = filter (fun x => negb (includes priority x)) ops.
Proof.
  revert nums' ops'.
  apply (reduce_pass_induction priority
           (fun nums ops res => forall nums' ops', res = inr (nums', ops') ->
              ops' = filter (fun x => negb (includes priority x)) ops)).
  - intros ? ? Hnone ? ? [= <- <-]. symmetry. now apply filter_nothing_to_drop.
  - discriminate.
  - clear nums ops. intros nums ops nums1 ops1 _ Hstep IH nums' ops' Hrest.
    rewrite (IH _ _ Hrest). clear IH Hrest.
    unfold reduce_step in Hstep.
    destruct (findIndex priority ops) as [idx|] eqn:Hidx; [|discriminate].
    destruct (findIndex_Some _ _ _ Hidx) as (pre & o & post & -> & <- & Hpre & Ho).
    destruct (nth_error nums (length pre)); [|discriminate].
    destruct (nth_error nums (S (length pre))); [|discriminate].
    rewrite nth_error_middle in Hstep.
    destruct (apply_operator _ _ _); [discriminate|].
    injection Hstep as _ <-.
    rewrite splice_remove_one. symmetry. now apply filter_drop_middle.
Qed.

(** ** The shape invariant: one operator fewer than operands *)

Lemma reduce_step_shape priority nums ops :
  length nums = S (length ops) ->
  existsb (includes priority) ops = true ->
  match reduce_step priority nums ops with
  | inl o => o = Returns ErrorMarker
  | inr (nums', ops') => length nums' = S (length ops')
  end.
Proof.
  intros Hshape Hsome. unfold reduce_step.
  destruct (findIndex priority ops) as [idx|] eqn:Hidx.
  2:{ apply findIndex_None in Hidx. congruence. }
  destruct (findIndex_Some _ _ _ Hidx) as (pre & o & post & -> & <- & _ & _).
  rewrite length_app in Hshape. simpl in Hshape.
  destruct (nth_error nums (length pre)) as [a|] eqn:Ha.
  2:{ apply nth_error_None in Ha. lia. }
  destruct (nth_error nums (S (length pre))) as [b|] eqn:Hb.
  2:{ apply nth_error_None in Hb. lia. }
  rewrite nth_error_middle.
  destruct (apply_operator o a b) as [r|v] eqn:Hop.
  - unfold apply_operator in Hop.
    destruct o; try discriminate.
    destruct (PrimFloat.eqb _ _); [|discriminate]. congruence.
  - rewrite splice_remove_one. unfold splice.
    rewrite !length_app, length_firstn, length_skipn. simpl. lia.
Qed.

Lemma reduce_pass_shape priority nums ops :
  length nums = S (length ops) ->
  match reduce_pass priority nums ops with
  | inl o => o = Returns ErrorMarker
  | inr (nums', ops') => length nums' = S (length ops')
  end.
Proof.
  apply (reduce_pass_induction priority
           (fun nums ops res => length nums = S (length ops) ->
              match res with
              | inl o => o = Returns ErrorMarker
              | inr (nums', ops') => length nums' = S (length ops')
              end)).
  - auto.
  - intros ? ? o Hsome Hstep Hshape.
    pose proof (reduce_step_shape priority _ _ Hshape Hsome) as H.
    now rewrite Hstep in H.
  - intros ? ? nums1 ops1 Hsome Hstep IH Hshape. apply IH.
    pose proof (reduce_step_shape priority _ _ Hshape Hsome) as H.
    now rewrite Hstep in H.
Qed.

(** The arithmetic of [+] and [-] never leaves the function. *)
Lemma reduce_pass_additive_runs nums ops :
  length nums = S (length ops) ->
  forallb (fun x => includes [Plus; Minus] x) ops = true ->
  exists nums', reduce_pass [Plus; Minus] nums ops = inr (nums', []) /\ length nums' = 1%nat.
Proof.
  intros Hshape Hadd.
  pose proof (reduce_pass_shape [Plus; Minus] nums ops Hshape) as Hres.
  destruct (reduce_pass [Plus; Minus] nums ops) as [o|[nums' ops']] eqn:Hpass.
  - exfalso. subst o. revert Hshape Hadd Hpass.
    apply (reduce_pass_induction [Plus; Minus]
             (fun nums ops res =>
                length nums = S (length ops) ->
                forallb (fun x => includes [Plus; Minus] x) ops = true ->
                res = inl (Returns ErrorMarker) -> False)).
    + discriminate.
    + intros nums0 ops0 o Hsome Hstep _ Hall [= ->].
      unfold reduce_step in Hstep.
      destruct (findIndex _ ops0) as [idx|] eqn:Hidx; [|discriminate].
      destruct (findIndex_Some _ _ _ Hidx) as (pre & op0 & post & -> & <- & _ & Hop).
      destruct (nth_error nums0 _); [|discriminate].
      destruct (nth_error nums0 _); [|discriminate].
      rewrite nth_error_middle in Hstep.
      destruct op0; try discriminate Hop; discriminate Hstep.
    + intros nums0 ops0 nums1 ops1 Hsome Hstep IH Hsh Hall Hres'.
      pose proof (reduce_step_shape _ _ _ Hsh Hsome) as Hsh1.
      rewrite Hstep in Hsh1.
      apply IH; try assumption.
      unfold reduce_step in Hstep.
      destruct (findIndex _ ops0) as [idx|] eqn:Hidx; [|discriminate].
      destruct (findIndex_Some _ _ _ Hidx) as (pre & op0 & post & -> & <- & _ & Hop).
      destruct (nth_error nums0 _); [|discriminate].
      destruct (nth_error nums0 _); [|discriminate].
      rewrite nth_error_middle in Hstep.
      destruct (apply_operator _ _ _); [discriminate|].
      injection Hstep as _ <-. rewrite splice_remove_one.
      rewrite forallb_app in Hall |- *.
      apply andb_true_iff in Hall as [H1 H2]. rewrite H1.
      simpl in H2 |- *. now apply andb_true_iff in H2 as [_ H2].
  - apply reduce_pass_leaves_others in Hpass as Hops.
    assert (ops' = []) as ->.
    { subst ops'. clear -Hadd. induction ops as [|x ops IH]; simpl in *; [reflexivity|].
      apply andb_true_iff in Hadd as [Hx Hr]. rewrite Hx. simpl. auto. }
    exists nums'. split; [reflexivity|]. simpl in Hres. exact Hres.
Qed.

(** [evaluate] always returns: it never throws, and its value is [null],
    the error marker or a Number. *)
Lemma evaluate_returns (s : string) :
  evaluate s = Returns NoResult \/ evaluate s = Returns ErrorMarker
  \/ exists n, evaluate s = Returns (VNum n).
Proof.
  unfold evaluate.
  destruct (tokenize s) as [[|[o|v p] [|t rest]]|]; auto.
  - right. right. eauto.
  - remember (TNum v p :: t :: rest) as tokens eqn:Htok. clear Htok.
    cbv zeta.
    destruct (Z.of_nat (length (token_ops tokens)) =? Z.of_nat (length (token_nums tokens)) - 1)
      eqn:Hshape; simpl; auto.
    apply Z.eqb_eq in Hshape.
    assert (length (token_nums tokens) = S (length (token_ops tokens))) as Hlen by lia.
    pose proof (reduce_pass_shape [Times; Divide] _ _ Hlen) as H1.
    pose proof (reduce_pass_leaves_others [Times; Divide] (token_nums tokens) (token_ops tokens)) as Hf.
    destruct (reduce_pass [Times; Divide] _ _) as [o|[nums1 ops1]].
    + subst o. auto.
    + specialize (Hf _ _ eq_refl).
      destruct (reduce_pass_additive_runs nums1 ops1 H1) as (nums2 & -> & Hone).
      { subst ops1. clear. induction (token_ops tokens) as [|x l IH]; [reflexivity|].
        simpl. destruct x; simpl; auto. }
      destruct nums2 as [|first [|]]; try discriminate.
      unfold finalize. destruct (_ || _); eauto.
Qed.

(** ** C10: the single-number path *)

(** C10: for every input that tokenizes to exactly one number token,
    [evaluate] returns that token's value, divided by 100 if it is
    percent-flagged, without the rounding to ten decimal places of the
    multi-token path; so [evaluate("0.00000000004")] is [4e-11] while
    [evaluate("0+0.00000000004")] is [0]. *)
Theorem C10_single_number_not_rounded :
  (forall s v p,
      tokenize s = Some [TNum v p] ->
      evaluate s = Returns (VNum (if p then (v / 100)%float else v)))
  /\ evaluate "0.00000000004" = Returns (VNum (parseFloat "4e-11"))
  /\ evaluate ("0+" ++ "0.00000000004") = Returns (VNum 0)
  /\ evaluate "0.00000000004" <> evaluate ("0+" ++ "0.00000000004")
  /\ PrimFloat.eqb (round10 (parseFloat "4e-11")) (parseFloat "4e-11") = false.
Proof.
  split; [|split; [|split; [|split]]].
  - intros s v p Ht. unfold evaluate. now rewrite Ht.
  - vm_compute. reflexivity.
  - vm_compute. reflexivity.
  - intros H.
    apply (f_equal (fun o => match o with
                             | Returns (VNum n) => PrimFloat.eqb n 0
                             | _ => true
                             end)) in H.
    vm_compute in H. discriminate.
  - vm_compute. reflexivity.
Qed.

Lemma C10_single_number_witness :
  tokenize "50%" = Some [TNum 50 true]
  /\ evaluate "50%" = Returns (VNum (50 / 100)%float).
Proof.
  split.
  - vm_compute. reflexivity.
  - apply (proj1 C10_single_number_not_rounded "50%" 50%float true).
    vm_compute. reflexivity.
Defined.

(** ** C5: percent of the left operand *)

(** C5: when [+] or [-] combines operands [a] and [b] and [b] is
    percent-flagged, the right-hand contribution is
    [aVal * (b.value / 100)], "b percent of a", where [aVal] is [a] with
    its own percent flag resolved as [a.value / 100]; hence
    [evaluate("100+8%")] is 108, [evaluate("100-8%")] is 92 and
    [evaluate("50%")] is 0.5. *)
Theorem C5_percent_of_left_operand :
  (forall a b,
      isPercent b = true ->
      apply_operator Plus a b
      = inr (percent_adjusted a + percent_adjusted a * (value b / 100))%float
      /\ apply_operator Minus a b
         = inr (percent_adjusted a - percent_adjusted a * (value b / 100))%float)
  /\ (forall a, percent_adjusted a = if isPercent a then (value a / 100)%float else value a)
  /\ (forall s a pa b,
         tokenize s = Some [TNum a pa; TOp Plus; TNum b true] ->
         let aVal := (if pa then a / 100 else a)%float in
         evaluate s = finalize (aVal + aVal * (b / 100))%float)
  /\ (forall s a pa b,
         tokenize s = Some [TNum a pa; TOp Minus; TNum b true] ->
         let aVal := (if pa then a / 100 else a)%float in
         evaluate s = finalize (aVal - aVal * (b / 100))%float)
  /\ evaluate "100+8%" = Returns (VNum 108)
  /\ evaluate "100-8%" = Returns (VNum 92)
  /\ evaluate "50%" = Returns (VNum 0.5).
Proof.
  split; [|split; [|split; [|split; [|split; [|split]]]]].
  - intros a b Hb. unfold apply_operator. now rewrite Hb.
  - reflexivity.
  - intros s a pa b Ht aVal. unfold evaluate. rewrite Ht.
    cbn [token_nums token_ops].
    rewrite reduce_pass_loop. simpl.
    rewrite reduce_pass_loop. unfold reduce_step. simpl.
    rewrite reduce_pass_loop. reflexivity.
  - intros s a pa b Ht aVal. unfold evaluate. rewrite Ht.
    cbn [token_nums token_ops].
    rewrite reduce_pass_loop. simpl.
    rewrite reduce_pass_loop. unfold reduce_step. simpl.
    rewrite reduce_pass_loop. reflexivity.
  - vm_compute. reflexivity.
  - vm_compute. reflexivity.
  - vm_compute. reflexivity.
Qed.

Lemma C5_percent_witness :
  tokenize "200+10%" = Some [TNum 200 false; TOp Plus; TNum 10 true]
  /\ evaluate "200+10%" = finalize (200 + 200 * (10 / 100))%float
  /\ evaluate "200+10%" = Returns (VNum 220).
Proof.
  split; [|split].
  - vm_compute. reflexivity.
  - apply (proj1 (proj2 (proj2 C5_percent_of_left_operand)) "200+10%" 200%float false 10%float).
    vm_compute. reflexivity.
  - vm_compute. reflexivity.
Defined.

(** ** The multi-token path of [evaluate] *)

Definition multiplicative (o : operator) : bool := includes [Times; Divide] o.

(** With at least two tokens, a leading number and one operator fewer
    than operands, [evaluate] is pass 1 over [*] and [/], then pass 2
    over what is left, then the final check and rounding. *)
Lemma evaluate_two_passes s v p t rest :
  let tokens := TNum v p :: t :: rest in
  let nums := token_nums tokens in
  let ops := token_ops tokens in
  tokenize s = Some tokens ->
  length nums = S (length ops) ->
  (reduce_pass [Times; Divide] nums ops = inl (Returns ErrorMarker)
   /\ evaluate s = Returns ErrorMarker)
  \/ (exists nums1 first,
         reduce_pass [Times; Divide] nums ops
         = inr (nums1, filter (fun x => negb (multiplicative x)) ops)
         /\ reduce_pass [Plus; Minus] nums1 (filter (fun x => negb (multiplicative x)) ops)
            = inr ([first], [])
         /\ evaluate s = finalize (percent_adjusted first)).
Proof.
  intros tokens nums ops Ht Hlen. unfold evaluate. rewrite Ht.
  fold tokens. fold nums. fold ops.
  replace (Z.of_nat (length ops) =? Z.of_nat (length nums) - 1) with true
    by (symmetry; apply Z.eqb_eq; lia).
  cbn [negb].
  pose proof (reduce_pass_shape [Times; Divide] _ _ Hlen) as H1.
  pose proof (reduce_pass_leaves_others [Times; Divide] nums ops) as Hf.
  destruct (reduce_pass [Times; Divide] nums ops) as [o|[nums1 ops1]].
  - subst o. now left.
  - right. specialize (Hf _ _ eq_refl). subst ops1.
    destruct (reduce_pass_additive_runs nums1 _ H1) as (nums2 & Hp2 & Hone).
    { clear. induction ops as [|x l IH]; [reflexivity|].
      simpl. destruct x; simpl; auto. }
    destruct nums2 as [|first [|]]; try discriminate.
    exists nums1, first. unfold multiplicative. now rewrite Hp2.
Qed.

(** ** C6: two passes, leftmost operator first *)

(** C6: [evaluate] reduces the token stream in two passes, each resolving
    the leftmost matching operator first: pass 1 handles all [*] and [/],
    splicing in a non-percent intermediate operand, and pass 2 then
    handles all [+] and [-]; so [evaluate("2+3*4")] is 14,
    [evaluate("2*3+4")] is 10 and [evaluate("20/4/5")] is 1, not 25. *)
Theorem C6_two_pass_reduction :
  (forall priority pre o post nums a b,
      forallb (fun x => negb (includes priority x)) pre = true ->
      includes priority o = true ->
      nth_error nums (length pre) = Some a ->
      nth_error nums (S (length pre)) = Some b ->
      reduce_pass priority nums (pre ++ o :: post) =
      match apply_operator o a b with
      | inl r => inl r
      | inr result =>
          reduce_pass priority
            (firstn (length pre) nums
               ++ {| value := result; isPercent := false |}
               :: skipn (length pre + 2) nums)
            (pre ++ post)
      end)
  /\ (forall priority nums ops nums' ops',
         reduce_pass priority nums ops = inr (nums', ops') ->
         ops' = filter (fun x => negb (includes priority x)) ops)
  /\ (forall s v p t rest,
         let tokens := TNum v p :: t :: rest in
         let nums := token_nums tokens in
         let ops := token_ops tokens in
         tokenize s = Some tokens ->
         length nums = S (length ops) ->
         (reduce_pass [Times; Divide] nums ops = inl (Returns ErrorMarker)
          /\ evaluate s = Returns ErrorMarker)
         \/ (exists nums1 first,
                reduce_pass [Times; Divide] nums ops
                = inr (nums1, filter (fun x => negb (multiplicative x)) ops)
                /\ reduce_pass [Plus; Minus] nums1
                     (filter (fun x => negb (multiplicative x)) ops)
                   = inr ([first], [])
                /\ evaluate s = finalize (percent_adjusted first)))
  /\ evaluate "2+3*4" = Returns (VNum 14)
  /\ evaluate "2*3+4" = Returns (VNum 10)
  /\ evaluate "20/4/5" = Returns (VNum 1)
  /\ evaluate "20/4/5" <> Returns (VNum 25).
Proof.
  split; [|split; [|split; [|split; [|split; [|split]]]]].
  - intros priority pre o post nums a b Hpre Ho Ha Hb.
    rewrite reduce_pass_loop, existsb_middle by assumption.
    rewrite (reduce_step_leftmost priority pre o post nums a b) by assumption.
    now destruct (apply_operator o a b).
  - apply reduce_pass_leaves_others.
  - apply evaluate_two_passes.
  - vm_compute. reflexivity.
  - vm_compute. reflexivity.
  - vm_compute. reflexivity.
  - intros H.
    apply (f_equal (fun o => match o with
                             | Returns (VNum n) => PrimFloat.eqb n 25
                             | _ => true
                             end)) in H.
    vm_compute in H. discriminate.
Qed.

Lemma C6_two_pass_witness :
  reduce_pass [Times; Divide]
    [{| value := 2; isPercent := false |}; {| value := 3; isPercent := false |};
     {| value := 4; isPercent := false |}]
    [Plus; Times]
  = reduce_pass [Times; Divide]
      [{| value := 2; isPercent := false |}; {| value := 12; isPercent := false |}]
      [Plus].
Proof.
  apply (proj1 C6_two_pass_reduction [Times; Divide] [Plus] Times []
           [{| value := 2; isPercent := false |}; {| value := 3; isPercent := false |};
            {| value := 4; isPercent := false |}]
           {| value := 3; isPercent := false |} {| value := 4; isPercent := false |});
    reflexivity.
Defined.

(** ** C4: when [evaluate] has no result *)

(** Tokenization fails exactly when one of the accumulated numerals
    parses to [NaN]. *)
Lemma tokenize_from_fails_iff s acc :
  tokenize_from s acc = None
  <-> Exists (fun n => PrimFloat.is_nan (parseFloat n) = true) (numerals s).
Proof.
  funelim (tokenize_from s acc).
  - rewrite numerals_equation_1. split; [discriminate|]. intros H. inversion H.
  - clear Heqcall. rewrite numerals_equation_2.
    destruct (operator_of_char c) as [o|]; [apply H|].
    destruct (is_numeral_char c); [|apply H1].
    cbv zeta.
    destruct (is_nan (parseFloat (String c (fst (span is_numeral_char r))))) eqn:Hnan.
    + split; [|reflexivity]. intros _. now constructor.
    + rewrite H0. split.
      * intros Hex. now apply Exists_cons_tl.
      * intros Hex. inversion Hex as [? ? Hhd|? ? Htl]; subst; [congruence|assumption].
Qed.

Lemma finalize_has_result x : finalize x <> Returns NoResult.
Proof.
  unfold finalize. destruct (_ || _); discriminate.
Qed.

(** C4, as the code has it: [evaluate] returns no result exactly when
    tokenization fails, or there are zero tokens, or the first token is
    not a number, or the operator count differs from the number count
    minus one; and tokenization fails exactly when some accumulated
    numeral parses to [NaN] (e.g. [".."]).  [evaluate("")] and
    [evaluate("abc")] have no result. *)
Theorem C4_no_result_exactly_when :
  (forall s,
      evaluate s = Returns NoResult <->
      tokenize s = None
      \/ exists tokens,
          tokenize s = Some tokens
          /\ (tokens = []
              \/ (exists o rest, tokens = TOp o :: rest)
              \/ Z.of_nat (length (token_ops tokens))
                 <> Z.of_nat (length (token_nums tokens)) - 1))
  /\ (forall s,
         tokenize s = None <->
         Exists (fun n => PrimFloat.is_nan (parseFloat n) = true) (numerals s))
  /\ tokenize ".." = None
  /\ evaluate "" = Returns NoResult
  /\ evaluate "abc" = Returns NoResult.
Proof.
  split; [|split; [|split; [|split]]].
  - intros s. split.
    + intros Hnone.
      destruct (tokenize s) as [tokens|] eqn:Ht; [right|now left].
      exists tokens. split; [reflexivity|].
      destruct tokens as [|[o|v p] [|t rest]]; eauto.
      * exfalso. unfold evaluate in Hnone. rewrite Ht in Hnone. discriminate.
      * right. right. intros Hshape.
        destruct (evaluate_two_passes s v p t rest Ht) as [[_ He]|(n1 & f & _ & _ & He)].
        { lia. }
        { rewrite He in Hnone. discriminate. }
        { rewrite He in Hnone. now apply finalize_has_result in Hnone. }
    + intros [Ht|(tokens & Ht & Hcase)]; unfold evaluate; rewrite Ht; [reflexivity|].
      destruct Hcase as [->|[(o & rest & ->)|Hshape]]; [reflexivity|reflexivity|].
      destruct tokens as [|[o|v p] [|t rest]]; try reflexivity.
      * exfalso. apply Hshape. reflexivity.
      * apply Z.eqb_neq in Hshape. now rewrite Hshape.
  - intros s. apply tokenize_from_fails_iff.
  - vm_compute. reflexivity.
  - vm_compute. reflexivity.
  - vm_compute. reflexivity.
Qed.

Lemma C4_no_result_witness :
  tokenize "2*-5" = Some [TNum 2 false; TOp Times; TOp Minus; TNum 5 false]
  /\ evaluate "2*-5" = Returns NoResult.
Proof.
  split.
  - vm_compute. reflexivity.
  - apply (proj1 C4_no_result_exactly_when "2*-5"). right.
    exists [TNum 2 false; TOp Times; TOp Minus; TNum 5 false].
    split; [vm_compute; reflexivity|].
    right. right. simpl. lia.
Defined.

(** The specification has tokenization fail whenever a numeral does
    not parse as a finite float.  A numeral of 310 digits parses to
    [Infinity], which is not [NaN]: tokenization succeeds and [evaluate]
    returns [Infinity]. *)
Lemma C4_overlong_numeral_counterexample :
  let s := String "1" (repeat_string "0" 309) in
  numerals s = [s]
  /\ PrimFloat.is_finite (parseFloat s) = false
  /\ tokenize s = Some [TNum infinity false]
  /\ evaluate s = Returns (VNum infinity)
  /\ evaluate s <> Returns NoResult.
Proof.
  cbv zeta. split; [|split; [|split; [|split]]].
  - vm_compute. reflexivity.
  - vm_compute. reflexivity.
  - vm_compute. reflexivity.
  - vm_compute. reflexivity.
  - intros H. vm_compute in H. discriminate.
Qed.

(** ** Diagram blocks *)

Lemma getDiagramResults_from_extends blocks results :
  exists pushed,
    getDiagramResults_from blocks results = (results ++ pushed)%list
    /\ length pushed = length blocks.
Proof.
  revert results. induction blocks as [|block rest IH]; intros results; simpl.
  - exists []. now rewrite app_nil_r.
  - destruct (IH (results ++ [stored_result (computeDiagramBlock block results)])%list)
      as (l & -> & Hlen).
    eexists. rewrite <- app_assoc. split; [reflexivity|]. simpl. now rewrite Hlen.
Qed.

(** Every block is computed against exactly the results before it. *)
Lemma getDiagramResults_from_nth blocks results i block :
  nth_error blocks i = Some block ->
  let all := getDiagramResults_from blocks results in
  nth_error all (length results + i)
  = Some (stored_result
            (computeDiagramBlock block (firstn (length results + i) all))).
Proof.
  revert results i. induction blocks as [|b rest IH]; intros results i Hi all.
  - destruct i; discriminate.
  - subst all. simpl.
    set (x := stored_result (computeDiagramBlock b results)).
    destruct i as [|i].
    + injection Hi as ->.
      destruct (getDiagramResults_from_extends rest (results ++ [x])) as (l & -> & _).
      rewrite Nat.add_0_r, <- app_assoc.
      rewrite nth_error_app2, Nat.sub_diag by lia.
      rewrite firstn_app, firstn_all, Nat.sub_diag, firstn_O, app_nil_r.
      reflexivity.
    + simpl in Hi. specialize (IH (results ++ [x])%list i Hi). cbv zeta in IH.
      rewrite length_app in IH. simpl in IH.
      replace (length results + S i)%nat with (length results + 1 + i)%nat by lia.
      exact IH.
Qed.

(** A reference whose number is zero, or not below the number of prior
    results, is unresolved. *)
Lemma resolve_reference_out_of_range str digits results :
  ref_match (trim str) = Some digits ->
  parseInt_digits digits = 0
  \/ Z.of_nat (length results) < parseInt_digits digits ->
  resolveDiagramValue str results = VNull.
Proof.
  intros Href Hrange. unfold resolveDiagramValue.
  destruct str as [|c r]; [reflexivity|].
  rewrite Href.
  destruct (0 <=? parseInt_digits digits - 1) eqn:Hidx; [|reflexivity].
  apply Z.leb_le in Hidx.
  destruct (nth_error results (Z.to_nat (parseInt_digits digits - 1))) eqn:Hnth;
    [|reflexivity].
  exfalso. assert (Z.to_nat (parseInt_digits digits - 1) < length results)%nat
    by (apply nth_error_Some; congruence).
  lia.
Qed.

(** ** C7: one forward pass over the blocks *)



(** ** C2: the operator of a block *)

Lemma trim_end_idempotent s : trim_end (trim_end s) = trim_end s.
Proof.
  induction s as [|c r IH]; [reflexivity|].
  simpl. destruct (trim_end r) as [|d r'] eqn:Hr.
  - destruct (is_white_space c) eqn:Hc; [reflexivity|]. simpl. now rewrite Hc.
  - remember (String d r') as t eqn:Ht. simpl. rewrite IH. subst t. reflexivity.
Qed.

Lemma trim_start_head s :
  trim_start s = ""
  \/ exists c r, trim_start s = String c r /\ is_white_space c = false.
Proof.
  induction s as [|c s IH]; simpl; [now left|].
  destruct (is_white_space c) eqn:Hc; [exact IH|].
  right. now exists c, s.
Qed.

Lemma trim_end_head c r :
  is_white_space c = false -> exists r', trim_end (String c r) = String c r'.
Proof.
  intros Hc. simpl. destruct (trim_end r) as [|d r'].
  - rewrite Hc. now exists "".
  - now exists (String d r').
Qed.

(** Trimming a trimmed string changes nothing. *)
Lemma trim_idempotent s : trim (trim s) = trim s.
Proof.
  unfold trim. destruct (trim_start_head s) as [->|(c & r & -> & Hc)];
    [reflexivity|].
  destruct (trim_end_head c r Hc) as (r' & Hr).
  rewrite Hr. simpl trim_start. rewrite Hc. rewrite <- Hr.
  apply trim_end_idempotent.
Qed.

Lemma Forall_set_nth {A} (P : A -> Prop) (l : list A) i x :
  Forall P l -> P x -> Forall P (set_nth i x l).
Proof.
  revert i. induction l as [|a l IH]; intros [|i] Hl Hx; simpl; try constructor;
    inversion Hl; subst; auto.
Qed.

(** The operator of every block is stored non-empty and trimmed: the new
    blocks have fixed operators, and [syncBlock] stores
    [opSlot.value.trim() || '+']. *)
Lemma diagramStep_ops_trimmed e st :
  Forall (fun b => op b <> "" /\ trim (op b) = op b) (diagramBlocks st) ->
  Forall (fun b => op b <> "" /\ trim (op b) = op b)
         (diagramBlocks (diagramStep e st)).
Proof.
  intros H. destruct e as [|i l o r|i|]; simpl.
  - apply Forall_app. split; [exact H|].
    constructor; [|constructor]. simpl. split; [discriminate|reflexivity].
  - unfold syncBlock.
    destruct (nth_error (diagramBlocks st) i) as [b|]; [|exact H].
    simpl. apply Forall_set_nth; [exact H|]. simpl.
    destruct (trim o) as [|c t] eqn:Ho.
    + split; [discriminate|reflexivity].
    + split; [discriminate|]. rewrite <- Ho. apply trim_idempotent.
  - unfold removeBlock.
    destruct (nth_error (diagramBlocks st) i) as [b|]; [|exact H].
    simpl. rewrite Forall_forall in H |- *. intros x Hx.
    apply filter_In in Hx as [Hx _]. auto.
  - repeat constructor; discriminate.
Qed.

Lemma diagramRun_ops_trimmed events st :
  Forall (fun b => op b <> "" /\ trim (op b) = op b) (diagramBlocks st) ->
  Forall (fun b => op b <> "" /\ trim (op b) = op b)
         (diagramBlocks (diagramRun events st)).
Proof.
  revert st. induction events as [|e events IH]; intros st H; simpl; [exact H|].
  apply IH. now apply diagramStep_ops_trimmed.
Qed.

(** C2, as the code has it.  For every block whose two operands resolve
    to Numbers, a blank operator applies [+] to them: [computeDiagramBlock]
    replaces an empty operator by ['+'], and the tool stores ['+'] for an
    operator slot that is empty or holds white space only, so that the
    operator of every block the tool holds is non-empty and trimmed.  An
    unknown operator does not default to addition: when the trimmed
    operator is non-empty and none of [+], [-], [*], [/], the block is
    unresolved ([null]); and a block of the tool with two Number
    operands is [null] exactly when its operator is none of the four. *)
Theorem C2_operator_default :
  (forall block results a b,
      resolveDiagramValue (left block) results = VNum a ->
      resolveDiagramValue (right block) results = VNum b ->
      (op block = "" \/ trim (op block) = "+" ->
       computeDiagramBlock block results = VNum (a + b))
      /\ (trim (op block) <> "" ->
          trim (op block) <> "+" -> trim (op block) <> "-" ->
          trim (op block) <> "*" -> trim (op block) <> "/" ->
          computeDiagramBlock block results = VNull))
  /\ (forall st index old leftValue opValue rightValue,
         nth_error (diagramBlocks st) index = Some old ->
         trim opValue = "" ->
         nth_error
           (diagramBlocks (syncBlock index leftValue opValue rightValue st)) index
         = Some {| id := id old; left := leftValue; op := "+"; right := rightValue |})
  /\ (forall events block,
         In block (diagramBlocks (diagramRun events diagramInitial)) ->
         op block <> "" /\ trim (op block) = op block)
  /\ (forall events block results a b,
         In block (diagramBlocks (diagramRun events diagramInitial)) ->
         resolveDiagramValue (left block) results = VNum a ->
         resolveDiagramValue (right block) results = VNum b ->
         (op block = "+" -> computeDiagramBlock block results = VNum (a + b))
         /\ (computeDiagramBlock block results = VNull
             <-> op block <> "+" /\ op block <> "-"
                 /\ op block <> "*" /\ op block <> "/")).
Proof.
  assert (Hstored : forall events block,
             In block (diagramBlocks (diagramRun events diagramInitial)) ->
             op block <> "" /\ trim (op block) = op block).
  { intros events block Hin.
    assert (Hall := diagramRun_ops_trimmed events diagramInitial (Forall_nil _)).
    rewrite Forall_forall in Hall. exact (Hall block Hin). }
  split; [|split; [|split; [exact Hstored|]]].
  - intros block results a b Hl Hr. unfold computeDiagramBlock.
    rewrite Hl, Hr. cbn [is_null orb]. split.
    + intros [Hempty|Hplus].
      * rewrite Hempty. reflexivity.
      * destruct (op block) as [|c r] eqn:Hop; [reflexivity|].
        rewrite Hplus. reflexivity.
    + intros Hne Hp Hm Ht Hd.
      destruct (op block) as [|c r] eqn:Hop; [now elim Hne|].
      apply String.eqb_neq in Hp, Hm, Ht, Hd.
      now rewrite Hp, Hm, Ht, Hd.
  - intros st index old leftValue opValue rightValue Hold Hblank.
    unfold syncBlock. rewrite Hold, Hblank. cbn [diagramBlocks].
    clear Hblank. revert index Hold.
    induction (diagramBlocks st) as [|x xs IH]; intros [|i] Hi; simpl in *;
      try discriminate.
    + now injection Hi as ->.
    + now apply IH.
  - intros events block results a b Hin Hl Hr.
    destruct (Hstored events block Hin) as [Hne Htrim].
    unfold computeDiagramBlock. rewrite Hl, Hr. cbn [is_null orb].
    destruct (op block) as [|c r] eqn:Hop; [now elim Hne|].
    rewrite Htrim. split.
    + intros ->. reflexivity.
    + destruct (String.eqb (String c r) "*") eqn:Ht.
      { apply String.eqb_eq in Ht. split; [discriminate|]. tauto. }
      destruct (String.eqb (String c r) "/") eqn:Hd.
      { apply String.eqb_eq in Hd. split; [|tauto].
        cbn [strict_eq_number]. destruct (PrimFloat.eqb b 0); discriminate. }
      destruct (String.eqb (String c r) "+") eqn:Hp.
      { apply String.eqb_eq in Hp. split; [discriminate|]. tauto. }
      destruct (String.eqb (String c r) "-") eqn:Hm.
      { apply String.eqb_eq in Hm. split; [discriminate|]. tauto. }
      apply String.eqb_neq in Ht, Hd, Hp, Hm. tauto.
Qed.

Lemma C2_operator_default_witness :
  let st := diagramRun [AddBlock; SyncBlock 0 "1" " " "2"] diagramInitial in
  let block := {| id := 1; left := "1"; op := "+"; right := "2" |} in
  diagramBlocks st = [block]
  /\ resolveDiagramValue (left block) [] = VNum 1
  /\ resolveDiagramValue (right block) [] = VNum 2
  /\ computeDiagramBlock block [] = VNum (1 + 2)
  /\ computeDiagramBlock {| id := 1; left := "1"; op := ""; right := "2" |} []
     = VNum (1 + 2).
Proof.
  cbv zeta. split; [reflexivity|].
  split; [vm_compute; reflexivity|split; [vm_compute; reflexivity|split]].
  - apply (proj1 (proj1 C2_operator_default
                    {| id := 1; left := "1"; op := "+"; right := "2" |} []
                    1%float 2%float
                    ltac:(vm_compute; reflexivity) ltac:(vm_compute; reflexivity))).
    right. reflexivity.
  - apply (proj1 (proj1 C2_operator_default
                    {| id := 1; left := "1"; op := ""; right := "2" |} []
                    1%float 2%float
                    ltac:(vm_compute; reflexivity) ltac:(vm_compute; reflexivity))).
    left. reflexivity.
Defined.

(** The specification has every operator other than the four apply
    [+].  Typing [x] in the operator slot of the block [1 * 2] stores the
    block [1 x 2]: both operands are resolved and the result is [null],
    not 3. *)
Lemma C2_unknown_operator_counterexample :
  let block := {| id := 1; left := "1"; op := "x"; right := "2" |} in
  diagramBlocks (diagramRun [AddBlock; SyncBlock 0 "1" "x" "2"] diagramInitial)
  = [block]
  /\ resolveDiagramValue (left block) [] = VNum 1
  /\ resolveDiagramValue (right block) [] = VNum 2
  /\ computeDiagramBlock block [] = VNull
  /\ computeDiagramBlock block [] <> js_add (VNum 1) (VNum 2)
  /\ getDiagramResults [block] = [VNull].
Proof.
  cbv zeta. split; [|split; [|split; [|split; [|split]]]].
  - reflexivity.
  - vm_compute. reflexivity.
  - vm_compute. reflexivity.
  - vm_compute. reflexivity.
  - intros H. vm_compute in H. discriminate.
  - vm_compute. reflexivity.
Qed.

(** ** C1: references to earlier results *)

(** What does hold: a reference to an unresolved ([null]) result is
    unresolved, and a block with an unresolved operand is unresolved. *)
Lemma null_reference_propagates str digits results :
  ref_match (trim str) = Some digits ->
  nth_error results (Z.to_nat (parseInt_digits digits - 1)) = Some VNull ->
  resolveDiagramValue str results = VNull
  /\ (forall block,
         left block = str \/ right block = str ->
         computeDiagramBlock block results = VNull).
Proof.
  intros Href Hnth.
  assert (Hres : resolveDiagramValue str results = VNull).
  { unfold resolveDiagramValue. destruct str; [reflexivity|].
    rewrite Href. destruct (0 <=? _); [|reflexivity]. now rewrite Hnth. }
  split; [exact Hres|].
  intros block [<-|<-]; unfold computeDiagramBlock; rewrite Hres; [reflexivity|].
  now rewrite orb_true_r.
Qed.

(** A reference to a result that is the error marker returns the marker
    itself, the string ['Error'], where the specification has [null]. *)
Lemma error_reference_returns_marker str digits results :
  ref_match (trim str) = Some digits ->
  1 <= parseInt_digits digits ->
  nth_error results (Z.to_nat (parseInt_digits digits - 1)) = Some ErrorMarker ->
  resolveDiagramValue str results = ErrorMarker.
Proof.
  intros Href Hk Hnth. unfold resolveDiagramValue.
  destruct str; [discriminate|].
  rewrite Href.
  replace (0 <=? parseInt_digits digits - 1) with true
    by (symmetry; apply Z.leb_le; lia).
  now rewrite Hnth.
Qed.

(** Between two Numbers, the error marker comes from a division by
    zero in the block itself and from nothing else. *)
Lemma error_marker_needs_division block results a b :
  resolveDiagramValue (left block) results = VNum a ->
  resolveDiagramValue (right block) results = VNum b ->
  computeDiagramBlock block results = ErrorMarker <->
  trim (match op block with EmptyString => "+" | o => o end) = "/"
  /\ PrimFloat.eqb b 0 = true.
Proof.
  intros Hl Hr. unfold computeDiagramBlock. rewrite Hl, Hr. cbn [is_null orb].
  set (o := trim _). unfold ErrorMarker.
  destruct (String.eqb o "*") eqn:Ht.
  { apply String.eqb_eq in Ht. rewrite Ht. split; [discriminate|]. now intros [? _]. }
  destruct (String.eqb o "/") eqn:Hd.
  { apply String.eqb_eq in Hd. rewrite Hd. cbn [strict_eq_number].
    destruct (PrimFloat.eqb b 0); split; try tauto; try discriminate.
    now intros [_ ?]. }
  apply String.eqb_neq in Hd.
  destruct (String.eqb o "+"); [split; [discriminate|tauto]|].
  destruct (String.eqb o "-"); split; try discriminate; tauto.
Qed.

(** C1 fails on the code: [resolveDiagramValue("#1", ['Error'])] is the
    string ['Error'], not [null], and the referencing block computes with
    it: [#1 + 5] is the string ['Error5'], [#1 * 5] is [NaN], where the
    specification has both unresolved. *)
Theorem C1_error_reference_is_not_null :
  resolveDiagramValue "#1" [ErrorMarker] = ErrorMarker
  /\ resolveDiagramValue "#1" [ErrorMarker] <> VNull
  /\ getDiagramResults
       [ {| id := 1; left := "1"; op := "/"; right := "0" |};
         {| id := 2; left := "#1"; op := "+"; right := "5" |} ]
     = [ErrorMarker; VStr "Error5"]
  /\ getDiagramResults
       [ {| id := 1; left := "1"; op := "/"; right := "0" |};
         {| id := 2; left := "#1"; op := "*"; right := "5" |} ]
     = [ErrorMarker; VNum nan]
  /\ getDiagramResults
       [ {| id := 1; left := "abc"; op := "+"; right := "1" |};
         {| id := 2; left := "#1"; op := "/"; right := "0" |} ]
     = [VNull; VNull].
Proof.
  split; [|split; [|split; [|split]]].
  - vm_compute. reflexivity.
  - intros H. vm_compute in H. discriminate.
  - vm_compute. reflexivity.
  - vm_compute. reflexivity.
  - vm_compute. reflexivity.
Qed.

(** ** C3: the error marker and non-finite results *)

(** Where the error marker comes from on the multi-token path: a division
    by zero in pass 1, or a final result that is not finite. *)
Lemma evaluate_error_marker s v p t rest :
  let tokens := TNum v p :: t :: rest in
  let nums := token_nums tokens in
  let ops := token_ops tokens in
  tokenize s = Some tokens ->
  length nums = S (length ops) ->
  evaluate s = Returns ErrorMarker <->
  reduce_pass [Times; Divide] nums ops = inl (Returns ErrorMarker)
  \/ exists nums1 first,
      reduce_pass [Times; Divide] nums ops
      = inr (nums1, filter (fun x => negb (multiplicative x)) ops)
      /\ reduce_pass [Plus; Minus] nums1 (filter (fun x => negb (multiplicative x)) ops)
         = inr ([first], [])
      /\ PrimFloat.is_finite (percent_adjusted first) = false.
Proof.
  intros tokens nums ops Ht Hlen.
  assert (Hfin : forall x, finalize x = Returns ErrorMarker <-> PrimFloat.is_finite x = false).
  { intros x. unfold finalize, PrimFloat.is_finite, PrimFloat.is_infinity.
    destruct (PrimFloat.is_nan x) eqn:Hnan.
    - rewrite orb_true_r. simpl. tauto.
    - rewrite orb_false_r. simpl.
      assert (Habs : PrimFloat.eqb (abs x) infinity
                     = PrimFloat.eqb x infinity || PrimFloat.eqb x neg_infinity).
      { rewrite !eqb_spec, abs_spec.
        unfold PrimFloat.is_nan in Hnan. rewrite eqb_spec in Hnan.
        apply negb_false_iff in Hnan.
        destruct (Prim2SF x) as [[]|[]| |[] m e]; try reflexivity; try discriminate. }
      rewrite Habs. unfold ErrorMarker.
      destruct (_ || _); simpl; split; congruence. }
  subst ops nums tokens.
  pose proof (evaluate_two_passes s v p t rest Ht Hlen) as H. cbv zeta in H.
  destruct H as [[Hp1 He]|(nums1 & first & Hp1 & Hp2 & He)].
  - split; [now left|intros _; exact He].
  - rewrite He, Hfin. split.
    + intros Hnf. right. now exists nums1, first.
    + intros [Habs|(n1 & f & Hp1' & Hp2' & Hnf)].
      * rewrite Hp1 in Habs. discriminate.
      * rewrite Hp1 in Hp1'. injection Hp1' as <-.
        rewrite Hp2 in Hp2'. injection Hp2' as <-. exact Hnf.
Qed.

(** C3 fails on the code: [evaluate] does return non-finite Numbers.  A
    single numeral of 310 digits is returned as [Infinity] by the
    single-token path, which has no check; and a finite result above
    about 1.8e298 passes the check and overflows in
    [Math.round(result * 1e10)].  The sibling inputs show the check that
    the specification describes. *)
Theorem C3_non_finite_number_returned :
  evaluate (String "1" (repeat_string "0" 309)) = Returns (VNum infinity)
  /\ evaluate (String "1" (repeat_string "0" 300) ++ "+0") = Returns (VNum infinity)
  /\ PrimFloat.is_finite (parseFloat (String "1" (repeat_string "0" 300))) = true
  /\ evaluate (String "1" (repeat_string "0" 309) ++ "+0") = Returns ErrorMarker
  /\ evaluate "10/0" = Returns ErrorMarker.
Proof.
  split; [|split; [|split; [|split]]]; vm_compute; reflexivity.
Qed.

(** ** C8: the function grapher *)

(** A numeral that starts with a dot not followed by a digit does not
    parse. *)
Lemma parseFloat_lone_dot t :
  match t with
  | String d _ => is_digit d = false
  | EmptyString => True
  end ->
  parseFloat (String "." t) = nan.
Proof.
  intros Ht. unfold parseFloat. cbn [trim_start is_white_space].
  change (is_white_space ".") with false. cbv iota.
  unfold decimal_prefix, unsigned_decimal_prefix.
  change (prefix "Infinity" (String "." t)) with false. cbv iota.
  cbn [span]. change (is_digit ".") with false. cbv iota.
  destruct t as [|d t']; [reflexivity|].
  cbn [span]. rewrite Ht. reflexivity.
Qed.

Lemma span_starts_without_digit p r :
  existsb_string is_digit r = false ->
  match fst (span p r) with
  | String d _ => is_digit d = false
  | EmptyString => True
  end.
Proof.
  destruct r as [|c r]; simpl; [trivial|].
  intros H. apply orb_false_iff in H as [Hc _].
  destruct (p c); [|exact I].
  destruct (span p r). exact Hc.
Qed.

(** A string without a digit yields no number token. *)
Lemma tokenize_from_without_digits s acc :
  existsb_string is_digit s = false ->
  tokenize_from s acc = None
  \/ exists os, tokenize_from s acc = Some (acc ++ map TOp os)%list.
Proof.
  funelim (tokenize_from s acc).
  - intros _. right. exists []. simpl. now rewrite app_nil_r.
  - clear Heqcall. intros Hnd. simpl in Hnd.
    apply orb_false_iff in Hnd as [Hc Hr].
    destruct (operator_of_char c) as [o|].
    + destruct (H o Hr) as [->|(os & ->)]; [now left|].
      right. exists (o :: os). simpl. now rewrite <- app_assoc.
    + destruct (is_numeral_char c) eqn:Hnum; [|now apply H1].
      left. unfold is_numeral_char in Hnum. rewrite Hc in Hnum. simpl in Hnum.
      apply Ascii.eqb_eq in Hnum. subst c.
      rewrite parseFloat_lone_dot by now apply span_starts_without_digit.
      reflexivity.
Qed.

Lemma evaluate_without_digits s :
  existsb_string is_digit s = false -> evaluate s = Returns NoResult.
Proof.
  intros Hnd. unfold evaluate, tokenize.
  destruct (tokenize_from_without_digits s [] Hnd) as [->|(os & ->)]; [reflexivity|].
  now destruct os.
Qed.

(** What does hold: the guard before the call is redundant, and
    [evaluateWithX] is [evaluate] on the cleaned string, with the error
    marker reported as [null]. *)
Lemma evaluateWithX_is_evaluate expr x :
  evaluateWithX expr x = error_to_null (evaluate (safe_expression expr x)).
Proof.
  unfold evaluateWithX.
  destruct expr as [|c r]; [reflexivity|].
  destruct (safe_expression (String c r) x) as [|d t] eqn:Hsafe; [reflexivity|].
  destruct (existsb_string is_digit (String d t)) eqn:Hd; [reflexivity|].
  cbn [negb]. now rewrite evaluate_without_digits.
Qed.

(** C8 fails on the code: with [x = 5], the expression [2x3] becomes
    [2*53], not [2*5*3]: the first replacement consumes the variable, so
    the second one finds no variable before the [3].  The specification has 30,
    the code returns 106.  Next to a digit on one side only, the [*] is
    inserted. *)
Theorem C8_variable_between_digits :
  safe_expression "2x3" 5 = "2*53"
  /\ evaluateWithX "2x3" 5 = Returns (VNum 106)
  /\ evaluateWithSubstitution_spec "2x3" 5 = Returns (VNum 30)
  /\ evaluateWithX "2x3" 5 <> evaluateWithSubstitution_spec "2x3" 5
  /\ evaluateWithX "2x" 5 = evaluateWithSubstitution_spec "2x" 5
  /\ evaluateWithX "x3" 5 = evaluateWithSubstitution_spec "x3" 5.
Proof.
  split; [|split; [|split; [|split; [|split]]]]; try (vm_compute; reflexivity).
  intros H.
  apply (f_equal (fun o => match o with
                           | Returns (VNum n) => PrimFloat.eqb n 106
                           | _ => false
                           end)) in H.
  vm_compute in H. discriminate.
Qed.

(** * Further properties of the evaluator and the diagram blocks *)

(** ** [evaluate] and [evaluateWithX] always return *)

Lemma evaluate_not_throws (s : string) : evaluate s <> Throws.
Proof.
  destruct (evaluate_returns s) as [H|[H|[n H]]]; rewrite H; discriminate.
Qed.

(** X1: [evaluate] never throws: on every string it returns [null], the
    error marker or a Number.  (The reads [nums[idx]], [nums[idx + 1]]
    and [nums[0]] are always in range, because the operands stay one
    more than the operators.) *)
Theorem evaluate_never_throws (s : string) :
  evaluate s <> Throws
  /\ (evaluate s = Returns NoResult
      \/ evaluate s = Returns ErrorMarker
      \/ exists n, evaluate s = Returns (VNum n)).
Proof.
  pose proof (evaluate_returns s) as H. split; [|exact H].
  destruct H as [H|[H|[n H]]]; rewrite H; discriminate.
Qed.

(** X2: [evaluateWithX] never throws and never returns the error marker:
    the grapher gets [null] or a Number for every expression and every
    [x]. *)
Theorem evaluateWithX_null_or_number (expr : string) (x : float) :
  evaluateWithX expr x = Returns VNull
  \/ exists n, evaluateWithX expr x = Returns (VNum n).
Proof.
  rewrite evaluateWithX_is_evaluate.
  destruct (evaluate_returns (safe_expression expr x)) as [H|[H|[n H]]];
    rewrite H; [left|left|right; exists n]; reflexivity.
Qed.

(** ** Expressions of two operands *)

(** X3: an expression that tokenizes to [a op b] without percent signs
    evaluates to the operator applied to the two numbers, checked and
    rounded; a division by a zero [b] is the error marker. *)
Theorem evaluate_two_operands s a o b :
  tokenize s = Some [TNum a false; TOp o; TNum b false] ->
  evaluate s =
  match o with
  | Plus => finalize (a + b)
  | Minus => finalize (a - b)
  | Times => finalize (a * b)
  | Divide => if PrimFloat.eqb b 0 then Returns ErrorMarker else finalize (a / b)
  end%float.
Proof.
  intros Ht. unfold evaluate. rewrite Ht. cbn [token_nums token_ops].
  destruct o.
  - rewrite reduce_pass_loop. simpl.
    rewrite reduce_pass_loop. unfold reduce_step. simpl.
    rewrite reduce_pass_loop. reflexivity.
  - rewrite reduce_pass_loop. simpl.
    rewrite reduce_pass_loop. unfold reduce_step. simpl.
    rewrite reduce_pass_loop. reflexivity.
  - rewrite reduce_pass_loop. unfold reduce_step. simpl.
    rewrite reduce_pass_loop. simpl.
    rewrite reduce_pass_loop. reflexivity.
  - rewrite reduce_pass_loop. unfold reduce_step. simpl.
    unfold apply_operator, percent_adjusted. simpl.
    destruct (PrimFloat.eqb b 0); [reflexivity|].
    rewrite reduce_pass_loop. simpl.
    rewrite reduce_pass_loop. reflexivity.
Qed.

Lemma evaluate_two_operands_witness :
  tokenize "45*3" = Some [TNum 45 false; TOp Times; TNum 3 false]
  /\ evaluate "45*3" = finalize (45 * 3)%float.
Proof.
  split.
  - vm_compute. reflexivity.
  - apply (evaluate_two_operands "45*3" 45%float Times 3%float).
    vm_compute. reflexivity.
Defined.

(** X4: a string without a digit never evaluates: the result is [null]
    whatever else it contains, so the digit tests that the notepad and
    the grapher make before calling [evaluate] change nothing. *)
Theorem no_digit_no_result (s : string) :
  existsb_string is_digit s = false -> evaluate s = Returns NoResult.
Proof.
  apply evaluate_without_digits.
Qed.

Lemma no_digit_no_result_witness :
  existsb_string is_digit "+.-abc%" = false
  /\ evaluate "+.-abc%" = Returns NoResult.
Proof.
  split; [reflexivity|].
  apply (no_digit_no_result "+.-abc%"). reflexivity.
Defined.

(** X5: on the multi-token path [evaluate] returns the error marker
    exactly when pass 1 divides by zero, or the last operand left after
    both passes is not finite. *)
Theorem error_marker_exactly_when s v p t rest :
  let tokens := TNum v p :: t :: rest in
  let nums := token_nums tokens in
  let ops := token_ops tokens in
  tokenize s = Some tokens ->
  length nums = S (length ops) ->
  evaluate s = Returns ErrorMarker <->
  reduce_pass [Times; Divide] nums ops = inl (Returns ErrorMarker)
  \/ exists nums1 first,
      reduce_pass [Times; Divide] nums ops
      = inr (nums1, filter (fun x => negb (multiplicative x)) ops)
      /\ reduce_pass [Plus; Minus] nums1 (filter (fun x => negb (multiplicative x)) ops)
         = inr ([first], [])
      /\ PrimFloat.is_finite (percent_adjusted first) = false.
Proof.
  apply evaluate_error_marker.
Qed.

Lemma error_marker_exactly_when_witness :
  tokenize "10/0" = Some [TNum 10 false; TOp Divide; TNum 0 false]
  /\ evaluate "10/0" = Returns ErrorMarker.
Proof.
  split; [vm_compute; reflexivity|].
  apply (proj2 (error_marker_exactly_when "10/0" 10%float false (TOp Divide)
                  [TNum 0 false] ltac:(vm_compute; reflexivity) eq_refl)).
  left. vm_compute. reflexivity.
Defined.

(** ** The grapher on negative [x] *)

(** [String(x)] of a negative Number starts with a minus sign. *)
Lemma Number_toString_negative (x : float) :
  PrimFloat.ltb x 0 = true -> exists t, Number_toString x = String "-" t.
Proof.
  intros Hlt. rewrite ltb_spec in Hlt.
  change (Prim2SF 0) with (S754_zero false) in Hlt.
  unfold Number_toString.
  destruct (Prim2SF x) as [s|s| |s m e]; try discriminate.
  - destruct s; [|discriminate]. eexists. reflexivity.
  - destruct s; [|discriminate].
    destruct (if 0 <=? e then _ else _) as [p q].
    destruct (shortest_digits _ _ _ _ _ _) as [d k].
    eexists. reflexivity.
Qed.

Lemma is_x_not_digit c : is_x c = true -> is_digit c = false.
Proof.
  unfold is_x. intros H. apply orb_true_iff in H as [H|H];
    apply Ascii.eqb_eq in H; subst c; reflexivity.
Qed.

Lemma evaluate_leading_minus (s : string) :
  evaluate (String "-" s) = Returns NoResult.
Proof.
  unfold evaluate, tokenize.
  rewrite tokenize_from_equation_2. cbn [operator_of_char Ascii.eqb Bool.eqb].
  simpl app.
  destruct (tokenize_from s [TOp Minus]) as [tokens|] eqn:Ht; [|reflexivity].
  destruct (tokenize_from_extends _ _ _ Ht) as [l ->].
  reflexivity.
Qed.

(** When the cleaned expression starts with the variable and [String(x)]
    starts with a minus sign, so does the string handed to [evaluate]. *)
Lemma safe_expression_leading_minus expr x c r t :
  keep (fun c => negb (is_white_space c)) (trim expr) = String c r ->
  is_x c = true ->
  Number_toString x = String "-" t ->
  exists s, safe_expression expr x = String "-" s.
Proof.
  intros Hclean Hc Hx. unfold safe_expression. rewrite Hclean, Hx.
  pose proof (is_x_not_digit c Hc) as Hnd.
  assert (H1 : exists r1, replace_digit_x (String "-" t) (String c r) = String c r1).
  { destruct r as [|c' r']; simpl; [eauto|]. rewrite Hnd. simpl. eauto. }
  destruct H1 as [r1 ->].
  assert (H2 : exists r2, replace_x (String "-" t) (replace_x_digit (String "-" t) (String c r1))
                          = String "-" r2).
  { destruct r1 as [|d r1']; simpl.
    - rewrite Hc. simpl. eauto.
    - rewrite Hc. simpl. destruct (is_digit d); simpl.
      + eauto.
      + rewrite Hc. simpl. eauto. }
  destruct H2 as [r2 ->]. simpl. eauto.
Qed.

(** X6: for every negative [x] and every expression that starts with the
    variable (such as the default series [x*2]), [evaluateWithX] returns
    [null]: the minus sign of [String(x)] becomes a leading operator
    token.  The grapher therefore has no point for such an expression
    left of zero. *)
Theorem evaluateWithX_negative_x expr x c r :
  PrimFloat.ltb x 0 = true ->
  keep (fun c => negb (is_white_space c)) (trim expr) = String c r ->
  is_x c = true ->
  evaluateWithX expr x = Returns VNull.
Proof.
  intros Hneg Hclean Hc.
  destruct (Number_toString_negative x Hneg) as [t Hx].
  destruct (safe_expression_leading_minus expr x c r t Hclean Hc Hx) as [s Hs].
  rewrite evaluateWithX_is_evaluate, Hs, evaluate_leading_minus. reflexivity.
Qed.

Lemma evaluateWithX_negative_x_witness :
  PrimFloat.ltb (-2) 0 = true
  /\ keep (fun c => negb (is_white_space c)) (trim "x*2") = "x*2"
  /\ evaluateWithX "x*2" (-2) = Returns VNull.
Proof.
  split; [reflexivity|split; [reflexivity|]].
  apply (evaluateWithX_negative_x "x*2" (-2)%float "x" "*2"); reflexivity.
Defined.

(** ** Diagram blocks: later blocks never change earlier results *)

Lemma getDiagramResults_from_app blocks more results :
  getDiagramResults_from (blocks ++ more) results
  = getDiagramResults_from more (getDiagramResults_from blocks results).
Proof.
  revert results. induction blocks as [|b rest IH]; intros results; simpl;
    [reflexivity|apply IH].
Qed.

(** X7: the results of the first blocks do not depend on the blocks after
    them: the results of [blocks ++ more] start with the results of
    [blocks], followed by one result per block of [more].  Appending or
    editing a later block never changes an earlier result. *)
Theorem results_of_prefix_are_stable blocks more :
  firstn (length blocks) (getDiagramResults (blocks ++ more))
  = getDiagramResults blocks
  /\ length (getDiagramResults (blocks ++ more)) = (length blocks + length more)%nat
  /\ forall more',
      firstn (length blocks) (getDiagramResults (blocks ++ more'))
      = firstn (length blocks) (getDiagramResults (blocks ++ more)).
Proof.
  assert (Hpre : forall extra,
             firstn (length blocks) (getDiagramResults (blocks ++ extra))
             = getDiagramResults blocks
             /\ length (getDiagramResults (blocks ++ extra))
                = (length blocks + length extra)%nat).
  { intros extra. unfold getDiagramResults. rewrite getDiagramResults_from_app.
    destruct (getDiagramResults_from_extends blocks []) as (l & Hl & Hlen).
    simpl in Hl. rewrite Hl.
    destruct (getDiagramResults_from_extends extra l) as (l' & -> & Hlen').
    rewrite <- Hlen, firstn_app, firstn_all, Nat.sub_diag, firstn_O, app_nil_r.
    split; [reflexivity|]. rewrite length_app. lia. }
  destruct (Hpre more) as [H1 H2]. split; [exact H1|split; [exact H2|]].
  intros more'. destruct (Hpre more') as [H1' _]. now rewrite H1, H1'.
Qed.

(** X8: a block one of whose operands is a reference [#k] to itself, to
    a later block or to no block ([k = 0], or [k] above its own
    position) is unresolved: its result is [null], whatever the other
    operand and the operator are. *)
Theorem forward_reference_is_unresolved blocks i block str digits :
  nth_error blocks i = Some block ->
  left block = str \/ right block = str ->
  ref_match (trim str) = Some digits ->
  parseInt_digits digits = 0 \/ Z.of_nat i < parseInt_digits digits ->
  nth_error (getDiagramResults blocks) i = Some VNull.
Proof.
  intros Hi Hside Href Hk.
  pose proof (getDiagramResults_from_nth blocks [] i block Hi) as Hnth.
  cbv zeta in Hnth. simpl in Hnth. unfold getDiagramResults. rewrite Hnth.
  f_equal.
  assert (Hres : resolveDiagramValue str
                   (firstn i (getDiagramResults_from blocks [])) = VNull).
  { apply (resolve_reference_out_of_range str digits); [assumption|].
    rewrite length_firstn.
    destruct (getDiagramResults_from_extends blocks []) as (l & -> & Hl).
    simpl. assert (i < length blocks)%nat by (apply nth_error_Some; congruence).
    destruct Hk as [Hk|Hk]; [now left|right; lia]. }
  unfold computeDiagramBlock.
  destruct Hside as [<-|<-]; rewrite Hres; [reflexivity|].
  now rewrite orb_true_r.
Qed.

Lemma forward_reference_is_unresolved_witness :
  let blocks := [ {| id := 2; left := "#1"; op := "+"; right := "30" |} ] in
  ref_match (trim "#1") = Some "1"
  /\ nth_error (getDiagramResults blocks) 0 = Some VNull.
Proof.
  cbv zeta. split; [reflexivity|].
  apply (forward_reference_is_unresolved _ 0%nat
           {| id := 2; left := "#1"; op := "+"; right := "30" |} "#1" "1").
  - reflexivity.
  - left. reflexivity.
  - reflexivity.
  - right. vm_compute. reflexivity.
Defined.

(** * The keypad calculator *)

(** ** Strings the calculator shows *)

Lemma substring_0_length n s :
  String.length (substring 0 n s) = Nat.min n (String.length s).
Proof.
  revert s. induction n as [|n IH]; intros [|c s]; simpl; auto.
Qed.

Lemma substring_0_nonempty n s :
  s <> "" -> (0 < n)%nat -> substring 0 n s <> "".
Proof.
  destruct n; [lia|]. destruct s; [congruence|]. discriminate.
Qed.

Lemma append_nonempty_l (a b : string) : a <> "" -> (a ++ b)%string <> "".
Proof.
  destruct a; [congruence|]. discriminate.
Qed.

Lemma append_nonempty_r (a b : string) : b <> "" -> (a ++ b)%string <> "".
Proof.
  destruct a; simpl; [auto|]. discriminate.
Qed.

Lemma string_of_Z_nonempty z : string_of_Z z <> "".
Proof.
  unfold string_of_Z, NilZero.string_of_uint.
  destruct (N.to_uint (Z.to_N z)); discriminate.
Qed.

Lemma format_decimal_nonempty s k n : format_decimal s k n <> "".
Proof.
  unfold format_decimal.
  destruct (_ && _); [apply append_nonempty_l, string_of_Z_nonempty|].
  destruct (_ && _); [apply append_nonempty_r; discriminate|].
  destruct (_ && _); [discriminate|].
  destruct (k =? 1).
  - apply append_nonempty_l, string_of_Z_nonempty.
  - apply append_nonempty_r. discriminate.
Qed.

Lemma Number_toString_nonempty x : Number_toString x <> "".
Proof.
  unfold Number_toString.
  destruct (Prim2SF x) as [s|s| |s m e]; try discriminate.
  - destruct s; discriminate.
  - destruct (if 0 <=? e then _ else _) as [p q].
    destruct (shortest_digits _ _ _ _ _ _) as [d k].
    destruct s; [discriminate|].
    destruct (d =? 10 ^ k); apply format_decimal_nonempty.
Qed.

(** ** What every key press keeps *)

Lemma updateDisplay_ok v st :
  (pendingOp st = None <-> pendingValue st = None) ->
  ToString v <> "" ->
  calculator_ok (updateDisplay v st).
Proof.
  intros Hp Hne. unfold calculator_ok, updateDisplay. cbn [pendingOp pendingValue displayText display].
  split; [exact Hp|].
  destruct (MAX_DISPLAY_LEN <? String.length (ToString v))%nat eqn:Hlen.
  - apply Nat.ltb_lt in Hlen. split.
    + rewrite substring_0_length. lia.
    + apply substring_0_nonempty; [assumption|unfold MAX_DISPLAY_LEN; lia].
  - apply Nat.ltb_ge in Hlen. split; assumption.
Qed.

Lemma show_if_short_ok st :
  (pendingOp st = None <-> pendingValue st = None) ->
  (String.length (displayText st) <= MAX_DISPLAY_LEN)%nat ->
  display st <> "" ->
  calculator_ok (show_if_short st).
Proof.
  intros Hp Hs Hd. unfold show_if_short.
  destruct (_ <=? _)%nat; [now apply updateDisplay_ok|].
  exact (conj Hp (conj Hs Hd)).
Qed.

Lemma evaluate_result_nonempty s v :
  evaluate s = Returns v -> is_null v = false -> ToString v <> "".
Proof.
  intros He Hv.
  destruct (evaluate_returns s) as [H|[H|[n H]]]; rewrite H in He;
    injection He as <-; try discriminate.
  apply Number_toString_nonempty.
Qed.

(** X9: [handleInput] never throws, and every key press keeps the
    calculator well formed: [pendingOp] and [pendingValue] are [null]
    together or set together, the text shown in the display has at most
    24 characters, and [display] is never the empty string. *)
Theorem handleInput_keeps_calculator_ok value st :
  calculator_ok st ->
  exists st', handleInput value st = Some st' /\ calculator_ok st'.
Proof.
  intros (Hp & Hs & Hd). unfold handleInput.
  destruct (String.eqb value "C").
  { eexists. split; [reflexivity|]. apply updateDisplay_ok; [|discriminate]. reflexivity. }
  set (st1 := if String.eqb (display st) "Error"
              then set_pending None None (set_display "0" st) else st).
  assert (H1 : calculator_ok st1).
  { subst st1. destruct (String.eqb (display st) "Error").
    - repeat split; simpl; auto; discriminate.
    - exact (conj Hp (conj Hs Hd)). }
  clearbody st1. clear st Hp Hs Hd. pose proof H1 as Hok. destruct H1 as (Hp & Hs & Hd).
  destruct (String.eqb value "=").
  { destruct (pendingOp st1) as [po|] eqn:Hpo;
      destruct (pendingValue st1) as [pv|] eqn:Hpv;
      destruct (negb (String.eqb (display st1) "")) eqn:Hne.
    1: { destruct (evaluate (pv ++ po ++ display st1)) as [result|] eqn:He.
         2:{ exfalso. now pose proof (evaluate_not_throws (pv ++ po ++ display st1)). }
         destruct (is_null result) eqn:Hnull.
         - eexists. split; [reflexivity|]. exact Hok.
         - eexists. split; [reflexivity|]. apply updateDisplay_ok; [reflexivity|].
           simpl. eapply evaluate_result_nonempty; eassumption. }
    all: destruct (evaluate (display st1)) as [result|] eqn:He;
      [|exfalso; now pose proof (evaluate_not_throws (display st1))];
      eexists; (split; [reflexivity|]);
      (apply updateDisplay_ok; [destruct (is_null result); simpl; rewrite ?Hpo, ?Hpv; auto|]);
      destruct (is_null result) eqn:Hnull; simpl; auto;
      eapply evaluate_result_nonempty; eassumption. }
  destruct (String.eqb value "%").
  { destruct (PrimFloat.is_nan (parseFloat (display st1))).
    { eexists. split; [reflexivity|]. exact Hok. }
    destruct (pendingValue st1) as [pv|] eqn:Hpv; destruct (pendingOp st1) as [po|] eqn:Hpo.
    1: destruct (PrimFloat.is_nan (parseFloat pv));
         [eexists; split; [reflexivity|]; exact Hok|].
    all: eexists; (split; [reflexivity|]);
      (apply updateDisplay_ok; [rewrite ?Hpo, ?Hpv; auto|apply Number_toString_nonempty]). }
  destruct (is_operator_key value).
  { assert (Hhold : forall st2 : Calculator,
               exists st',
                 (let pv := if String.eqb (display st2) "0"
                                && negb (includes_char "." (display st2))
                            then "0" else display st2 in
                  let st3 := set_display "0" (set_pending (Some value) (Some pv) st2) in
                  Some (updateDisplay (VStr (display st3)) st3)) = Some st'
                 /\ calculator_ok st').
    { intros st2. eexists. split; [reflexivity|].
      apply updateDisplay_ok; simpl; [split; discriminate|discriminate]. }
    destruct (pendingOp st1) as [po|]; destruct (pendingValue st1) as [pv|];
      destruct (negb (String.eqb (display st1) "") && negb (String.eqb (display st1) "0"));
      try apply Hhold.
    destruct (evaluate (pv ++ po ++ display st1)) as [result|] eqn:He.
    2:{ exfalso. now pose proof (evaluate_not_throws (pv ++ po ++ display st1)). }
    destruct (negb (is_null result) && negb (strict_eq_string result "Error"));
      [|apply Hhold].
    eexists. split; [reflexivity|].
    apply updateDisplay_ok; simpl; [split; discriminate|discriminate]. }
  destruct (String.eqb value ".").
  { destruct (_ && _).
    { eexists. split; [reflexivity|]. exact Hok. }
    eexists. split; [reflexivity|]. apply show_if_short_ok; simpl; auto.
    destruct (_ || _); [destruct (String.eqb (display st1) "0"); [discriminate|]|];
      apply append_nonempty_r; discriminate. }
  destruct (existsb_string is_digit value) eqn:Hdig.
  { eexists. split; [reflexivity|]. apply show_if_short_ok; simpl; auto.
    assert (value <> "") by (intros ->; discriminate).
    destruct (_ && _); [assumption|].
    destruct (negb _); [now apply append_nonempty_r|].
    destruct (String.eqb value "0"); [discriminate|assumption]. }
  eexists. split; [reflexivity|]. exact Hok.
Qed.

Lemma handleInput_keeps_calculator_ok_witness :
  let st := {| display := "12"; pendingOp := Some "+"; pendingValue := Some "8";
               displayText := "12" |} in
  calculator_ok st
  /\ exists st', handleInput "=" st = Some st' /\ calculator_ok st'.
Proof.
  cbv zeta.
  assert (H : calculator_ok {| display := "12"; pendingOp := Some "+";
                               pendingValue := Some "8"; displayText := "12" |}).
  { repeat split; simpl; try discriminate. unfold MAX_DISPLAY_LEN. lia. }
  split; [exact H|].
  exact (handleInput_keeps_calculator_ok "=" _ H).
Defined.

(** ** Typing a number *)

Lemma digit_cases c :
  is_digit c = true ->
  c = "0"%char \/ c = "1"%char \/ c = "2"%char \/ c = "3"%char \/ c = "4"%char
  \/ c = "5"%char \/ c = "6"%char \/ c = "7"%char \/ c = "8"%char \/ c = "9"%char.
Proof.
  destruct c as [[] [] [] [] [] [] [] []]; intros H; try discriminate H; tauto.
Qed.

(** One digit key on a display that holds digits not starting with zero:
    the digit is appended. *)
Lemma handleInput_digit_appends d c r st :
  is_digit d = true ->
  display st = String c r ->
  is_digit c = true -> c <> "0"%char ->
  handleInput (key d) st = Some (show_if_short (set_display (String c r ++ key d) st)).
Proof.
  intros Hd Hdisp Hc Hc0. unfold handleInput, key.
  assert (Herr : String.eqb (display st) "Error" = false).
  { rewrite Hdisp. simpl.
    destruct (digit_cases c Hc) as [->|[->|[->|[->|[->|[->|[->|[->|[->| ->]]]]]]]]];
      reflexivity. }
  assert (Hz : String.eqb (display st) "0" = false).
  { rewrite Hdisp. simpl.
    destruct (digit_cases c Hc) as [->|[->|[->|[->|[->|[->|[->|[->|[->| ->]]]]]]]]];
      try reflexivity. congruence. }
  rewrite Herr.
  destruct (digit_cases d Hd) as [->|[->|[->|[->|[->|[->|[->|[->|[->| ->]]]]]]]]];
    cbn [String.eqb Ascii.eqb Bool.eqb is_operator_key orb existsb_string is_digit];
    rewrite Hz; simpl; rewrite Hdisp; reflexivity.
Qed.

(** The first digit key on a display that is ["0"] replaces it. *)
Lemma handleInput_digit_replaces_zero d st :
  is_digit d = true ->
  display st = "0" ->
  handleInput (key d) st = Some (show_if_short (set_display (key d) st)).
Proof.
  intros Hd Hdisp. unfold handleInput, key.
  assert (Herr : String.eqb (display st) "Error" = false) by now rewrite Hdisp.
  rewrite Herr.
  destruct (digit_cases d Hd) as [->|[->|[->|[->|[->|[->|[->|[->|[->| ->]]]]]]]]];
    cbn [String.eqb Ascii.eqb Bool.eqb is_operator_key orb existsb_string is_digit];
    rewrite Hdisp; reflexivity.
Qed.

Lemma show_if_short_of_short st :
  (String.length (display st) <= MAX_DISPLAY_LEN)%nat ->
  show_if_short st
  = {| display := display st; pendingOp := pendingOp st;
       pendingValue := pendingValue st; displayText := display st |}.
Proof.
  intros Hlen. unfold show_if_short, updateDisplay.
  replace (String.length (display st) <=? MAX_DISPLAY_LEN)%nat with true
    by (symmetry; now apply Nat.leb_le).
  cbn [ToString].
  replace (MAX_DISPLAY_LEN <? String.length (display st))%nat with false
    by (symmetry; apply Nat.ltb_ge; lia).
  reflexivity.
Qed.

Lemma string_length_append (a b : string) :
  String.length (a ++ b) = (String.length a + String.length b)%nat.
Proof.
  induction a as [|c a IH]; simpl; [reflexivity|now rewrite IH].
Qed.

Lemma append_empty_r (a : string) : (a ++ "")%string = a.
Proof.
  induction a as [|x a IH]; simpl; [reflexivity|now rewrite IH].
Qed.

Lemma append_assoc (a b c : string) : ((a ++ b) ++ c = a ++ (b ++ c))%string.
Proof.
  induction a as [|x a IH]; simpl; [reflexivity|now rewrite IH].
Qed.

(** More digits after the first: they are appended one by one. *)
Lemma pressKeys_more_digits ds : forall c r st,
  existsb_string (fun d => negb (is_digit d)) ds = false ->
  display st = String c r ->
  is_digit c = true -> c <> "0"%char ->
  (String.length (String c r ++ ds) <= MAX_DISPLAY_LEN)%nat ->
  pressKeys (keys_of ds) st
  = Some {| display := String c r ++ ds; pendingOp := pendingOp st;
            pendingValue := pendingValue st;
            displayText := match ds with
                           | EmptyString => displayText st
                           | _ => String c r ++ ds
                           end |}.
Proof.
  induction ds as [|d ds IH]; intros c r st Hds Hdisp Hc Hc0 Hlen.
  - unfold keys_of. cbn [list_ascii_of_string map pressKeys].
    rewrite append_empty_r, <- Hdisp. now destruct st.
  - simpl in Hds. apply orb_false_iff in Hds as [Hd Hds].
    apply negb_false_iff in Hd.
    unfold keys_of. simpl. fold (keys_of ds).
    rewrite (handleInput_digit_appends d c r st Hd Hdisp Hc Hc0).
    rewrite string_length_append in Hlen. simpl in Hlen.
    rewrite show_if_short_of_short
      by (simpl; rewrite string_length_append; simpl; lia).
    cbn [display set_display pendingOp pendingValue].
    change (String c r ++ key d)%string with (String c (r ++ key d)).
    rewrite (IH c (r ++ key d)%string); cbn [display pendingOp pendingValue displayText];
      try assumption; try reflexivity.
    + change (String c (r ++ key d) ++ ds)%string with (String c ((r ++ key d) ++ ds)).
      rewrite append_assoc. simpl. now destruct ds.
    + simpl. rewrite append_assoc, string_length_append. simpl. lia.
Qed.

(** Typing a numeral on a display that shows ["0"] puts exactly that
    numeral in [display] and on the screen, and leaves the held operator
    and value alone. *)
Lemma pressKeys_numeral s st :
  plain_numeral s = true ->
  (String.length s <= MAX_DISPLAY_LEN)%nat ->
  display st = "0" ->
  pressKeys (keys_of s) st
  = Some {| display := s; pendingOp := pendingOp st;
            pendingValue := pendingValue st; displayText := s |}.
Proof.
  intros Hnum Hlen Hdisp.
  destruct s as [|c r]; [discriminate|].
  unfold plain_numeral in Hnum.
  apply andb_true_iff in Hnum as [Hnum Hzero].
  apply andb_true_iff in Hnum as [Hc Hr]. apply negb_true_iff in Hr.
  unfold keys_of. simpl. fold (keys_of r).
  rewrite (handleInput_digit_replaces_zero c st Hc Hdisp).
  rewrite show_if_short_of_short by (simpl; unfold MAX_DISPLAY_LEN; lia).
  cbn [display set_display pendingOp pendingValue].
  apply orb_true_iff in Hzero as [Hnz|Hr0].
  - rewrite (pressKeys_more_digits r c EmptyString); cbn [display pendingOp pendingValue displayText];
      try assumption; try reflexivity.
    + unfold key. simpl. now destruct r.
    + intros ->. discriminate.
  - apply String.eqb_eq in Hr0. subst r. reflexivity.
Qed.

(** ** Whole calculations *)

Lemma pressKeys_app k1 k2 st :
  pressKeys (k1 ++ k2) st
  = match pressKeys k1 st with
    | Some st' => pressKeys k2 st'
    | None => None
    end.
Proof.
  revert st. induction k1 as [|k k1 IH]; intros st; simpl; [reflexivity|].
  destruct (handleInput k st); [apply IH|reflexivity].
Qed.

Lemma operator_key_cases o :
  is_operator_key o = true -> o = "+" \/ o = "-" \/ o = "*" \/ o = "/".
Proof.
  unfold is_operator_key. intros H.
  repeat (apply orb_true_iff in H as [H|H]); apply String.eqb_eq in H; auto.
Qed.

Lemma plain_numeral_not_error s : plain_numeral s = true -> String.eqb s "Error" = false.
Proof.
  destruct s as [|c r]; [discriminate|]. unfold plain_numeral. intros H.
  apply andb_true_iff in H as [H _]. apply andb_true_iff in H as [Hc _].
  simpl. destruct (digit_cases c Hc) as [->|[->|[->|[->|[->|[->|[->|[->|[->| ->]]]]]]]]];
    reflexivity.
Qed.

Lemma plain_numeral_nonempty s : plain_numeral s = true -> String.eqb s "" = false.
Proof.
  destruct s; [discriminate|reflexivity].
Qed.

(** An operator key when nothing is held: the display is held, and the
    display starts again from ["0"]. *)
Lemma handleInput_operator_holds o st :
  is_operator_key o = true ->
  pendingOp st = None ->
  String.eqb (display st) "Error" = false ->
  handleInput o st
  = Some {| display := "0"; pendingOp := Some o;
            pendingValue := Some (display st); displayText := "0" |}.
Proof.
  intros Ho Hp Herr. unfold handleInput. rewrite Herr.
  assert (Hpv : (if String.eqb (display st) "0" && negb (includes_char "." (display st))
                 then "0" else display st) = display st).
  { destruct (String.eqb (display st) "0") eqn:Hz; [|reflexivity].
    apply String.eqb_eq in Hz. now rewrite Hz. }
  destruct (operator_key_cases o Ho) as [->|[->|[->| ->]]];
    cbn [String.eqb Ascii.eqb Bool.eqb is_operator_key orb];
    rewrite Hp, Hpv; reflexivity.
Qed.

(** The [=] key when an operator and a value are held. *)
Lemma handleInput_equals_evaluates st po pv v :
  pendingOp st = Some po -> pendingValue st = Some pv ->
  String.eqb (display st) "Error" = false ->
  String.eqb (display st) "" = false ->
  evaluate (pv ++ po ++ display st) = Returns v ->
  is_null v = false ->
  handleInput "=" st
  = Some {| display := clipped (ToString v); pendingOp := None;
            pendingValue := None; displayText := clipped (ToString v) |}.
Proof.
  intros Hpo Hpv Herr Hne He Hv. unfold handleInput. rewrite Herr.
  cbn [String.eqb Ascii.eqb Bool.eqb].
  rewrite Hpo, Hpv, Hne. cbn [negb]. rewrite He, Hv. reflexivity.
Qed.


(** X10: a calculation typed on the keypad.  From any state, pressing
    [C], the digits of [a], an operator, the digits of [b] and [=] shows
    [String(evaluate(a op b))], cut to 24 characters, and leaves nothing
    held. *)
Theorem keypad_computes_evaluate st a o b v :
  plain_numeral a = true -> plain_numeral b = true ->
  (String.length a <= MAX_DISPLAY_LEN)%nat ->
  (String.length b <= MAX_DISPLAY_LEN)%nat ->
  is_operator_key o = true ->
  evaluate (a ++ o ++ b) = Returns v ->
  is_null v = false ->
  pressKeys ("C" :: keys_of a ++ o :: keys_of b ++ ["="]) st
  = Some {| display := clipped (ToString v); pendingOp := None;
            pendingValue := None; displayText := clipped (ToString v) |}.
Proof.
  intros Ha Hb Hla Hlb Ho He Hv.
  change (pressKeys ("C" :: keys_of a ++ o :: keys_of b ++ ["="]) st)
    with (pressKeys (keys_of a ++ o :: keys_of b ++ ["="])
            {| display := "0"; pendingOp := None; pendingValue := None;
               displayText := "0" |}).
  rewrite pressKeys_app, pressKeys_numeral by (assumption || reflexivity).
  cbn [pendingOp pendingValue pressKeys].
  rewrite handleInput_operator_holds
    by (try assumption; try reflexivity; cbn [display]; now apply plain_numeral_not_error).
  cbn [display].
  rewrite pressKeys_app, pressKeys_numeral by (assumption || reflexivity).
  cbn [pendingOp pendingValue pressKeys].
  rewrite (handleInput_equals_evaluates _ o a v); cbn [display pendingOp pendingValue];
    try reflexivity; try assumption.
  - now apply plain_numeral_not_error.
  - now apply plain_numeral_nonempty.
Qed.

Lemma keypad_computes_evaluate_witness :
  evaluate ("12" ++ "+" ++ "8") = Returns (VNum 20)
  /\ pressKeys ["C"; "1"; "2"; "+"; "8"; "="]
       {| display := "7"; pendingOp := Some "*"; pendingValue := Some "3";
          displayText := "7" |}
     = Some {| display := "20"; pendingOp := None; pendingValue := None;
               displayText := "20" |}.
Proof.
  split; [vm_compute; reflexivity|].
  apply (keypad_computes_evaluate _ "12" "+" "8" (VNum 20));
    try reflexivity; try (unfold MAX_DISPLAY_LEN; simpl; lia).
Defined.



(** ** Operands the keypad loses *)

(** Every operator key leaves ["0"] in [display]. *)
Lemma handleInput_operator_resets_display o st :
  is_operator_key o = true ->
  exists st', handleInput o st = Some st' /\ display st' = "0".
Proof.
  intros Ho. unfold handleInput.
  set (st1 := if String.eqb (display st) "Error"
              then set_pending None None (set_display "0" st) else st).
  clearbody st1.
  destruct (operator_key_cases o Ho) as [->|[->|[->| ->]]];
    cbn [String.eqb Ascii.eqb Bool.eqb is_operator_key orb];
    destruct (pendingOp st1) as [po|]; destruct (pendingValue st1) as [pv|];
    destruct (negb (String.eqb (display st1) "") && negb (String.eqb (display st1) "0"));
    try (eexists; split; reflexivity);
    (destruct (evaluate (pv ++ po ++ display st1)) as [result|] eqn:He;
     [|exfalso; now pose proof (evaluate_not_throws (pv ++ po ++ display st1))]);
    destruct (negb (is_null result) && negb (strict_eq_string result "Error"));
    eexists; split; reflexivity.
Qed.

(** An operator key on a display that is ["0"] holds ["0"], whatever was
    held before. *)
Lemma handleInput_operator_on_zero o st :
  is_operator_key o = true ->
  display st = "0" ->
  handleInput o st
  = Some {| display := "0"; pendingOp := Some o; pendingValue := Some "0";
            displayText := "0" |}.
Proof.
  intros Ho Hz. unfold handleInput.
  assert (Herr : String.eqb (display st) "Error" = false) by now rewrite Hz.
  rewrite Herr.
  destruct (operator_key_cases o Ho) as [->|[->|[->| ->]]];
    cbn [String.eqb Ascii.eqb Bool.eqb is_operator_key orb];
    rewrite Hz; cbn; destruct (pendingOp st); destruct (pendingValue st); reflexivity.
Qed.

(** X12: two operator keys in a row lose the first operand: whatever the
    state before, after the two keys the held value is ["0"] and the held
    operator is the second one.  ([5 + * 2 =] computes [0 * 2].) *)
Theorem two_operators_hold_zero st o1 o2 :
  is_operator_key o1 = true -> is_operator_key o2 = true ->
  pressKeys [o1; o2] st
  = Some {| display := "0"; pendingOp := Some o2; pendingValue := Some "0";
            displayText := "0" |}.
Proof.
  intros Ho1 Ho2. cbn [pressKeys].
  destruct (handleInput_operator_resets_display o1 st Ho1) as (st1 & -> & Hz).
  now rewrite (handleInput_operator_on_zero o2 st1 Ho2 Hz).
Qed.

Lemma two_operators_hold_zero_witness :
  pressKeys ["5"; "+"; "*"; "2"; "="]
    {| display := "0"; pendingOp := None; pendingValue := None; displayText := "0" |}
  = Some {| display := "0"; pendingOp := None; pendingValue := None;
            displayText := "0" |}.
Proof.
  change (pressKeys ["5"; "+"; "*"; "2"; "="]
            {| display := "0"; pendingOp := None; pendingValue := None;
               displayText := "0" |})
    with (match pressKeys ["+"; "*"]
                  {| display := "5"; pendingOp := None; pendingValue := None;
                     displayText := "5" |} with
          | Some st => pressKeys ["2"; "="] st
          | None => None
          end).
  rewrite (two_operators_hold_zero _ "+" "*" eq_refl eq_refl).
  vm_compute. reflexivity.
Defined.

(** X13: a negative result cannot be used.  When the display holds a
    string that starts with a minus sign and nothing is held, pressing an
    operator, a number [c] and [=] carries out no calculation: [=]
    changes nothing, the display still shows [c] and the operator and the
    negative value stay held. *)
Theorem negative_value_blocks_equals st t o c :
  display st = String "-" t ->
  pendingOp st = None ->
  is_operator_key o = true ->
  plain_numeral c = true ->
  (String.length c <= MAX_DISPLAY_LEN)%nat ->
  pressKeys (o :: keys_of c ++ ["="]) st
  = Some {| display := c; pendingOp := Some o;
            pendingValue := Some (String "-" t); displayText := c |}.
Proof.
  intros Hd Hp Ho Hc Hlc. cbn [pressKeys].
  rewrite handleInput_operator_holds by (try assumption; now rewrite Hd).
  rewrite Hd, pressKeys_app, pressKeys_numeral by (assumption || reflexivity).
  cbn [pendingOp pendingValue pressKeys].
  unfold handleInput. cbn [display pendingOp pendingValue].
  rewrite (plain_numeral_not_error c Hc). cbn [display pendingOp pendingValue].
  rewrite (plain_numeral_nonempty c Hc).
  cbn [String.eqb Ascii.eqb Bool.eqb negb].
  change (String "-" t ++ o ++ c)%string with (String "-" (t ++ o ++ c)).
  rewrite evaluate_leading_minus. reflexivity.
Qed.

Lemma negative_value_blocks_equals_witness :
  pressKeys ["7"; "-"; "9"; "="]
    {| display := "0"; pendingOp := None; pendingValue := None; displayText := "0" |}
  = Some {| display := "-2"; pendingOp := None; pendingValue := None;
            displayText := "-2" |}
  /\ pressKeys ["+"; "3"; "="]
       {| display := "-2"; pendingOp := None; pendingValue := None;
          displayText := "-2" |}
     = Some {| display := "3"; pendingOp := Some "+"; pendingValue := Some "-2";
               displayText := "3" |}.
Proof.
  split; [vm_compute; reflexivity|].
  apply (negative_value_blocks_equals _ "2" "+" "3"); try reflexivity.
  unfold MAX_DISPLAY_LEN. simpl. lia.
Defined.

(** ** After an error *)

Lemma handleInput_after_error value st :
  display st = "Error" ->
  String.eqb value "C" = false ->
  handleInput value st
  = handleInput value (set_pending None None (set_display "0" st)).
Proof.
  intros Hd Hc. unfold handleInput. rewrite Hc, Hd. reflexivity.
Qed.

(** X14: after an error the next number starts afresh.  When the display
    holds ['Error'], typing a numeral leaves exactly that numeral in the
    display, and whatever operator and value were held are dropped. *)
Theorem numeral_after_error st c :
  display st = "Error" ->
  plain_numeral c = true ->
  (String.length c <= MAX_DISPLAY_LEN)%nat ->
  pressKeys (keys_of c) st
  = Some {| display := c; pendingOp := None; pendingValue := None;
            displayText := c |}.
Proof.
  intros Hd Hc Hlc.
  pose proof (pressKeys_numeral c (set_pending None None (set_display "0" st))
                Hc Hlc eq_refl) as Hnum.
  cbn [pendingOp pendingValue set_pending] in Hnum. rewrite <- Hnum. clear Hnum.
  destruct c as [|d r]; [discriminate|].
  unfold keys_of. cbn [list_ascii_of_string map pressKeys].
  rewrite (handleInput_after_error (key d) st Hd); [reflexivity|].
  unfold plain_numeral in Hc.
  apply andb_true_iff in Hc as [Hc _]. apply andb_true_iff in Hc as [Hdig _].
  unfold key. simpl.
  destruct (digit_cases d Hdig) as [->|[->|[->|[->|[->|[->|[->|[->|[->| ->]]]]]]]]];
    reflexivity.
Qed.

Lemma numeral_after_error_witness :
  pressKeys ["1"; "/"; "0"; "="]
    {| display := "0"; pendingOp := None; pendingValue := None; displayText := "0" |}
  = Some {| display := "Error"; pendingOp := None; pendingValue := None;
            displayText := "Error" |}
  /\ pressKeys (keys_of "42")
       {| display := "Error"; pendingOp := Some "+"; pendingValue := Some "1";
          displayText := "Error" |}
     = Some {| display := "42"; pendingOp := None; pendingValue := None;
               displayText := "42" |}.
Proof.
  split; [vm_compute; reflexivity|].
  apply (numeral_after_error _ "42"); try reflexivity.
  unfold MAX_DISPLAY_LEN. simpl. lia.
Defined.

(** * The notepad *)

Lemma trim_start_keeps_visible s :
  existsb_string (fun c => negb (is_white_space c)) s = true ->
  exists c r, trim_start s = String c r /\ is_white_space c = false.
Proof.
  induction s as [|c s IH]; simpl; [discriminate|].
  destruct (is_white_space c) eqn:Hc; simpl; [exact IH|].
  intros _. now exists c, s.
Qed.

Lemma trim_end_keeps_head c r :
  is_white_space c = false -> trim_end (String c r) <> "".
Proof.
  intros Hc. simpl. destruct (trim_end r); [rewrite Hc|]; discriminate.
Qed.

Lemma trim_visible_nonempty s :
  existsb_string (fun c => negb (is_white_space c)) s = true ->
  String.eqb (trim s) "" = false.
Proof.
  intros H. destruct (trim_start_keeps_visible s H) as (c & r & Hs & Hc).
  apply String.eqb_neq. unfold trim. rewrite Hs. now apply trim_end_keeps_head.
Qed.

Lemma existsb_string_append p a b :
  existsb_string p (a ++ b) = existsb_string p a || existsb_string p b.
Proof.
  induction a as [|c a IH]; simpl; [reflexivity|]. now rewrite IH, orb_assoc.
Qed.

Lemma before_equals_append a b :
  includes_char "=" a = false -> before_equals (a ++ String "=" b) = a.
Proof.
  unfold includes_char. induction a as [|c a IH].
  - simpl. reflexivity.
  - cbn [existsb_string before_equals append].
    intros H. apply orb_false_iff in H as [Hc Ha].
    rewrite Ascii.eqb_sym, Hc. now rewrite IH.
Qed.


(** X16: only the text before the first [=] of a line is evaluated.  For
    a text [a] without [=], what the notepad appends to the line
    [a = b] is the same whatever [b] is. *)
Theorem notepad_ignores_text_after_equals arrow a :
  includes_char "=" a = false ->
  exists suffix, forall b,
    renderNotepadLine arrow (a ++ String "=" b) = Some ((a ++ String "=" b) ++ suffix).
Proof.
  intros Ha.
  assert (Hvis : forall b, String.eqb (trim (a ++ String "=" b)) "" = false).
  { intros b. apply trim_visible_nonempty.
    rewrite existsb_string_append. simpl. apply orb_true_r. }
  assert (Hinc : forall b, includes_char "=" (a ++ String "=" b) = true).
  { intros b. unfold includes_char. rewrite existsb_string_append. simpl.
    apply orb_true_r. }
  unfold renderNotepadLine.
  set (expr := keep is_arithmetic_char (trim a)).
  destruct (String.eqb (trim a) "") eqn:Hraw.
  { exists "". intros b. rewrite Hvis, Hinc, before_equals_append, Hraw by assumption.
    cbn [negb]. now rewrite append_empty_r. }
  destruct (String.eqb expr "" || negb (existsb_string is_digit expr)) eqn:Hguard.
  { exists "". intros b. rewrite Hvis, Hinc, before_equals_append, Hraw by assumption.
    cbn [negb]. fold expr. rewrite Hguard. now rewrite append_empty_r. }
  destruct (evaluate expr) as [v|] eqn:He.
  2:{ exfalso. now pose proof (evaluate_not_throws expr). }
  destruct (is_null v) eqn:Hnull.
  { exists "". intros b. rewrite Hvis, Hinc, before_equals_append, Hraw by assumption.
    cbn [negb]. fold expr. rewrite Hguard, He, Hnull. now rewrite append_empty_r. }
  destruct (strict_eq_string v "Error") eqn:Herr.
  - exists (arrow ++ "[Error]")%string. intros b.
    rewrite Hvis, Hinc, before_equals_append, Hraw by assumption.
    cbn [negb]. fold expr. now rewrite Hguard, He, Hnull, Herr.
  - exists (arrow ++ ToString v)%string. intros b.
    rewrite Hvis, Hinc, before_equals_append, Hraw by assumption.
    cbn [negb]. fold expr. now rewrite Hguard, He, Hnull, Herr.
Qed.

Lemma notepad_ignores_text_after_equals_witness :
  includes_char "=" "Tax: 3*5 " = false
  /\ renderNotepadLine " -> " "Tax: 3*5 = 99" = Some "Tax: 3*5 = 99 -> 15"
  /\ exists suffix, forall b,
      renderNotepadLine " -> " ("Tax: 3*5 " ++ String "=" b)
      = Some (("Tax: 3*5 " ++ String "=" b) ++ suffix).
Proof.
  split; [reflexivity|split; [vm_compute; reflexivity|]].
  apply (notepad_ignores_text_after_equals " -> " "Tax: 3*5 "). reflexivity.
Defined.

(** * The diagram tool *)

(** ** Block identifiers *)

Lemma StronglySorted_snoc (l : list Z) (x : Z) :
  StronglySorted Z.lt l -> Forall (fun y => y < x) l -> StronglySorted Z.lt (l ++ [x]).
Proof.
  induction l as [|a l IH]; simpl; intros Hs Hall.
  - repeat constructor.
  - inversion Hs as [|? ? Hs' Ha]; subst. inversion Hall as [|? ? Hax Hall']; subst.
    constructor; [auto|]. apply Forall_app. split; [assumption|]. now constructor.
Qed.

Lemma StronglySorted_filter_ids f (l : list DiagramBlock) :
  StronglySorted Z.lt (map id l) -> StronglySorted Z.lt (map id (filter f l)).
Proof.
  induction l as [|a l IH]; simpl; intros Hs; [constructor|].
  inversion Hs as [|? ? Hs' Ha]; subst.
  destruct (f a); simpl; [|auto].
  constructor; [auto|].
  rewrite Forall_forall in Ha |- *. intros x Hx. apply Ha.
  apply in_map_iff in Hx as (b & <- & Hb). apply in_map.
  now apply filter_In in Hb as [Hb _].
Qed.

Lemma map_id_set_nth (l : list DiagramBlock) i b b' :
  nth_error l i = Some b -> id b' = id b -> map id (set_nth i b' l) = map id l.
Proof.
  revert i. induction l as [|a l IH]; intros [|i]; simpl; try discriminate.
  - intros [= ->] ->. reflexivity.
  - intros Hn Hid. now rewrite (IH i Hn Hid).
Qed.

Lemma diagramStep_ids_ok e st : diagram_ids_ok st -> diagram_ids_ok (diagramStep e st).
Proof.
  intros [Hs Hb]. destruct e as [|i l o r|i|]; simpl.
  - unfold addDiagramBlock, diagram_ids_ok. simpl. split.
    + rewrite map_app. simpl. apply StronglySorted_snoc; [assumption|].
      rewrite Forall_map. eapply Forall_impl; [|exact Hb]. simpl. intros; lia.
    + apply Forall_app. split.
      * eapply Forall_impl; [|exact Hb]. simpl. intros; lia.
      * constructor; [simpl; lia|constructor].
  - unfold syncBlock.
    destruct (nth_error (diagramBlocks st) i) as [b|] eqn:Hn; [|now split].
    unfold diagram_ids_ok. simpl. split.
    + now rewrite (map_id_set_nth _ i b).
    + apply Forall_set_nth; [assumption|]. simpl.
      rewrite Forall_forall in Hb. apply Hb. eapply nth_error_In; eassumption.
  - unfold removeBlock.
    destruct (nth_error (diagramBlocks st) i) as [b|]; [|now split].
    unfold diagram_ids_ok. simpl. split.
    + now apply StronglySorted_filter_ids.
    + rewrite Forall_forall in Hb |- *. intros x Hx.
      apply filter_In in Hx as [Hx _]. auto.
  - unfold runDiagramWalkthrough, diagram_ids_ok. simpl. split.
    + repeat constructor; lia.
    + repeat constructor; simpl; lia.
Qed.

Lemma diagramRun_ids_ok events st :
  diagram_ids_ok st -> diagram_ids_ok (diagramRun events st).
Proof.
  revert st. induction events as [|e events IH]; intros st H; simpl; [assumption|].
  apply IH. now apply diagramStep_ids_ok.
Qed.

Lemma filter_other_ids (l : list DiagramBlock) (b : DiagramBlock) i :
  StronglySorted Z.lt (map id l) ->
  nth_error l i = Some b ->
  filter (fun x => negb (id x =? id b)) l = (firstn i l ++ skipn (S i) l)%list.
Proof.
  revert i. induction l as [|a l IH]; intros [|i] Hs Hn; simpl in *; try discriminate.
  - injection Hn as ->. rewrite Z.eqb_refl. simpl.
    inversion Hs as [|? ? _ Ha]; subst.
    clear -Ha. induction l as [|x l IH]; simpl; [reflexivity|].
    inversion Ha as [|? ? Hx Hl]; subst.
    replace (id x =? id b) with false by (symmetry; apply Z.eqb_neq; lia).
    simpl. now rewrite IH.
  - inversion Hs as [|? ? Hs' Ha]; subst.
    assert (id a < id b).
    { rewrite Forall_forall in Ha. apply Ha. apply in_map.
      eapply nth_error_In; eassumption. }
    replace (id a =? id b) with false by (symmetry; apply Z.eqb_neq; lia).
    simpl. now rewrite (IH i Hs' Hn).
Qed.

(** X17: in every state the diagram tool can reach from the empty
    diagram (by adding, editing and removing blocks and by the
    walkthrough) the identifiers of the blocks are pairwise different,
    and the remove button of a card removes exactly that card: the blocks
    before and after it stay, in order. *)
Theorem remove_button_removes_its_card events index block :
  let st := diagramRun events diagramInitial in
  nth_error (diagramBlocks st) index = Some block ->
  NoDup (map id (diagramBlocks st))
  /\ diagramBlocks (removeBlock index st)
     = (firstn index (diagramBlocks st) ++ skipn (S index) (diagramBlocks st))%list.
Proof.
  intros st Hn.
  assert (Hok : diagram_ids_ok st).
  { apply diagramRun_ids_ok. split; constructor. }
  destruct Hok as [Hs _]. split.
  - clear -Hs. induction (map id (diagramBlocks st)) as [|a l IH]; [constructor|].
    inversion Hs as [|? ? Hs' Ha]; subst. constructor; [|auto].
    intros Hin. rewrite Forall_forall in Ha. specialize (Ha a Hin). lia.
  - unfold removeBlock. rewrite Hn. simpl. now apply filter_other_ids.
Qed.

Lemma remove_button_removes_its_card_witness :
  let events := [AddBlock; AddBlock; Walkthrough; AddBlock; RemoveBlock 0] in
  nth_error (diagramBlocks (diagramRun events diagramInitial)) 1
  = Some {| id := 5; left := "#2"; op := "-"; right := "15" |}
  /\ diagramBlocks (removeBlock 1 (diagramRun events diagramInitial))
     = [ {| id := 4; left := "#1"; op := "+"; right := "30" |};
         {| id := 6; left := "#1"; op := "*"; right := "10" |} ].
Proof.
  cbv zeta. split; [reflexivity|].
  rewrite (proj2 (remove_button_removes_its_card
                    [AddBlock; AddBlock; Walkthrough; AddBlock; RemoveBlock 0] 1
                    {| id := 5; left := "#2"; op := "-"; right := "15" |} eq_refl)).
  reflexivity.
Defined.

(** ** A new block *)

(** X18: [addDiagramBlock] keeps every earlier result and appends one:
    100 for the first block ([5 * 20]); for a later block ([#1 * 10]),
    ten times the first result, rounded, or [null] when the first result
    is [null]. *)
Theorem addDiagramBlock_results st :
  let results := getDiagramResults (diagramBlocks st) in
  getDiagramResults (diagramBlocks (addDiagramBlock st))
  = (results
     ++ [ match results with
          | [] => VNum 100
          | first :: _ =>
              if is_null first then VNull
              else VNum (round10 (ToNumber first * 10)%float)
          end ])%list.
Proof.
  intros results. unfold addDiagramBlock. cbn [diagramBlocks].
  unfold getDiagramResults. rewrite getDiagramResults_from_app.
  fold (getDiagramResults (diagramBlocks st)). fold results.
  cbn [getDiagramResults_from]. f_equal. f_equal.
  assert (Hlen : length results = length (diagramBlocks st)).
  { subst results. unfold getDiagramResults.
    destruct (getDiagramResults_from_extends (diagramBlocks st) []) as (l & -> & Hl).
    exact Hl. }
  destruct results as [|first rest].
  - destruct (diagramBlocks st); [|discriminate]. vm_compute. reflexivity.
  - destruct (diagramBlocks st) as [|b bs]; [discriminate|]. cbn [length Nat.eqb].
    unfold computeDiagramBlock. cbn [left right op].
    change (resolveDiagramValue "10" (first :: rest)) with (VNum 10).
    change (resolveDiagramValue "#1" (first :: rest))
      with (if is_null first then VNull else first).
    destruct first as [|n|s]; reflexivity.
Qed.

(** ** Links *)

Lemma nth_error_firstn_below {A} (l : list A) i j :
  (j < i)%nat -> nth_error (firstn i l) j = nth_error l j.
Proof.
  revert i j. induction l as [|a l IH]; intros i j H.
  - rewrite firstn_nil. reflexivity.
  - destruct i as [|i]; [lia|]. destruct j as [|j]; simpl; [reflexivity|].
    apply IH. lia.
Qed.

(** X19: the links drawn agree with the values computed.  For the card
    at position [i], a link is drawn to a slot from the card at position
    [j] only if [j] is before [i], and then the operand is the result of
    block [j] (or [null] when that result is [null]); a slot that holds a
    reference and gets no link is unresolved. *)
Theorem links_show_where_operands_come_from blocks i slot :
  (i < length blocks)%nat ->
  let results := getDiagramResults blocks in
  match diagramLinkSource (length blocks) i slot with
  | Some j =>
      (j < i)%nat
      /\ resolveDiagramValue slot (firstn i results)
         = match nth_error results j with
           | Some v => if is_null v then VNull else v
           | None => VNull
           end
  | None =>
      ref_match (trim slot) = None
      \/ resolveDiagramValue slot (firstn i results) = VNull
  end.
Proof.
  intros Hi results.
  assert (Hlen : length results = length blocks).
  { subst results. unfold getDiagramResults.
    destruct (getDiagramResults_from_extends blocks []) as (l & -> & Hl). exact Hl. }
  unfold diagramLinkSource.
  destruct (ref_match (trim slot)) as [digits|] eqn:Href; [|now left].
  destruct (_ || _) eqn:Hout.
  - right. unfold resolveDiagramValue.
    destruct slot as [|c r]; [reflexivity|].
    rewrite Href.
    destruct (0 <=? parseInt_digits digits - 1) eqn:H0; [|reflexivity].
    apply Z.leb_le in H0.
    replace (parseInt_digits digits - 1 <? 0) with false in Hout
      by (symmetry; apply Z.ltb_ge; lia).
    destruct (nth_error (firstn i results) (Z.to_nat (parseInt_digits digits - 1)))
      eqn:Hn; [|reflexivity].
    exfalso.
    assert (Z.to_nat (parseInt_digits digits - 1) < length (firstn i results))%nat
      by (apply nth_error_Some; congruence).
    rewrite length_firstn, Hlen in H.
    simpl in Hout. apply orb_true_iff in Hout as [Ho|Ho]; apply Z.leb_le in Ho; lia.
  - apply orb_false_iff in Hout as [Hout H3]. apply orb_false_iff in Hout as [H1 H2].
    apply Z.ltb_ge in H1. apply Z.leb_gt in H2, H3.
    split; [lia|].
    unfold resolveDiagramValue.
    destruct slot as [|c r]; [discriminate|].
    rewrite Href.
    replace (0 <=? parseInt_digits digits - 1) with true by (symmetry; apply Z.leb_le; lia).
    rewrite nth_error_firstn_below by lia. reflexivity.
Qed.

Lemma links_show_where_operands_come_from_witness :
  let blocks :=
    [ {| id := 1; left := "5"; op := "*"; right := "20" |};
      {| id := 2; left := "#1"; op := "+"; right := "30" |} ] in
  (1 < length blocks)%nat
  /\ diagramLinkSource (length blocks) 1 "#1" = Some 0%nat
  /\ resolveDiagramValue "#1" (firstn 1 (getDiagramResults blocks)) = VNum 100.
Proof.
  cbv zeta. split; [simpl; lia|]. split; [reflexivity|].
  pose proof (links_show_where_operands_come_from
                [ {| id := 1; left := "5"; op := "*"; right := "20" |};
                  {| id := 2; left := "#1"; op := "+"; right := "30" |} ]
                1%nat "#1" ltac:(simpl; lia)) as H.
  cbv zeta in H.
  change (diagramLinkSource _ _ _) with (Some 0%nat) in H.
  destruct H as [_ H]. rewrite H. vm_compute. reflexivity.
Defined.

(** * The circuit builder *)

(** ** The keys of the visited set *)

Lemma string_of_uint_no_comma d :
  existsb_string (fun c => negb (is_digit c)) (NilEmpty.string_of_uint d) = false.
Proof.
  induction d; simpl; auto.
Qed.

Lemma string_of_Z_digits z :
  existsb_string (fun c => negb (is_digit c)) (string_of_Z z) = false.
Proof.
  unfold string_of_Z, NilZero.string_of_uint.
  destruct (N.to_uint (Z.to_N z)); try apply string_of_uint_no_comma; reflexivity.
Qed.

Lemma to_uint_not_nil n : N.to_uint n <> Decimal.Nil.
Proof.
  intros H. pose proof (DecimalN.Unsigned.of_to n) as Hn. rewrite H in Hn.
  simpl in Hn. subst n. discriminate.
Qed.

Lemma string_of_Z_injective a b :
  0 <= a -> 0 <= b -> string_of_Z a = string_of_Z b -> a = b.
Proof.
  intros Ha Hb H. unfold string_of_Z in H.
  apply (f_equal NilZero.uint_of_string) in H.
  rewrite !NilZero.usu in H by apply to_uint_not_nil.
  injection H as H. apply DecimalN.Unsigned.to_uint_inj in H. lia.
Qed.

Lemma integer_string_no_comma n :
  existsb_string (fun c => Ascii.eqb c ",") (Circuit.integer_string n) = false.
Proof.
  assert (H : forall s, existsb_string (fun c => negb (is_digit c)) s = false ->
                        existsb_string (fun c => Ascii.eqb c ",") s = false).
  { induction s as [|c s IH]; simpl; [reflexivity|].
    intros Hs. apply orb_false_iff in Hs as [Hc Hs]. rewrite (IH Hs), orb_false_r.
    destruct (Ascii.eqb_spec c ","); [subst c; discriminate|reflexivity]. }
  unfold Circuit.integer_string. destruct (n <? 0); simpl;
    apply H, string_of_Z_digits.
Qed.

Lemma integer_string_injective a b :
  Circuit.integer_string a = Circuit.integer_string b -> a = b.
Proof.
  unfold Circuit.integer_string.
  assert (Hd : forall z t, string_of_Z z <> String "-" t).
  { intros z t H. pose proof (string_of_Z_digits z) as Hz. rewrite H in Hz.
    discriminate. }
  destruct (a <? 0) eqn:Ha, (b <? 0) eqn:Hb; intros H.
  - injection H as H. apply Z.ltb_lt in Ha, Hb.
    apply string_of_Z_injective in H; lia.
  - symmetry in H. now apply Hd in H.
  - now apply Hd in H.
  - apply Z.ltb_ge in Ha, Hb. now apply string_of_Z_injective.
Qed.

Lemma append_comma_injective (a a' b b' : string) :
  existsb_string (fun c => Ascii.eqb c ",") a = false ->
  existsb_string (fun c => Ascii.eqb c ",") a' = false ->
  (a ++ String "," b)%string = (a' ++ String "," b')%string ->
  a = a' /\ b = b'.
Proof.
  revert a'. induction a as [|x a IH]; intros [|x' a'] Ha Ha' H; simpl in *.
  - now injection H as ->.
  - injection H as <- _. discriminate.
  - injection H as -> _. discriminate.
  - injection H as -> H. apply orb_false_iff in Ha as [_ Ha].
    apply orb_false_iff in Ha' as [_ Ha'].
    destruct (IH a' Ha Ha' H) as [-> ->]. now split.
Qed.

(** Different positions have different keys. *)
Lemma key_injective r c r' c' :
  Circuit.key r c = Circuit.key r' c' -> r = r' /\ c = c'.
Proof.
  unfold Circuit.key. intros H.
  apply append_comma_injective in H; try apply integer_string_no_comma.
  destruct H as [Hr Hc]. split; now apply integer_string_injective.
Qed.

Lemma has_In k visited : Circuit.has k visited = true <-> In k visited.
Proof.
  unfold Circuit.has. rewrite existsb_exists. split.
  - intros (x & Hx & He). apply String.eqb_eq in He. now subst.
  - intros H. exists k. split; [assumption|apply String.eqb_refl].
Qed.

(** ** The stack *)

Lemma occupied_inside cells r c :
  Circuit.is_component (Circuit.getCellType cells r c) = true ->
  Circuit.outside r c = false.
Proof.
  unfold Circuit.getCellType. destruct (Circuit.outside r c); [discriminate|reflexivity].
Qed.

Lemma push_neighbours_In cells visited ns : forall stack x,
  In x (fold_left (Circuit.push_neighbour cells visited) ns stack)
  <-> In x stack
      \/ (In x ns /\ Circuit.occupied cells x
          /\ Circuit.has (Circuit.key (fst x) (snd x)) visited = false).
Proof.
  induction ns as [|[nr nc] ns IH]; intros stack x; simpl.
  - tauto.
  - rewrite IH. unfold Circuit.push_neighbour, Circuit.occupied.
    destruct (Circuit.outside nr nc) eqn:Hout.
    + split; [tauto|]. intros [H|[[<-|H] H']]; try tauto.
      simpl in H'. destruct H' as [H' _]. apply occupied_inside in H'. congruence.
    + destruct (Circuit.is_component (Circuit.getCellType cells nr nc)) eqn:Hc;
        destruct (Circuit.has (Circuit.key nr nc) visited) eqn:Hv; simpl.
      * split; [tauto|]. intros [H|[[<-|H] H']]; try tauto.
        simpl in H'. destruct H' as (_ & H'). congruence.
      * split.
        -- intros [[<-|H]|H]; try tauto; right; simpl; tauto.
        -- intros [H|[[<-|H] H']]; tauto.
      * split; [tauto|]. intros [H|[[<-|H] H']]; try tauto.
        simpl in H'. destruct H' as (H' & _). congruence.
      * split; [tauto|]. intros [H|[[<-|H] H']]; try tauto.
        simpl in H'. destruct H' as (H' & _). congruence.
Qed.

Lemma push_neighbours_length cells visited ns : forall stack,
  (length (fold_left (Circuit.push_neighbour cells visited) ns stack)
   <= length stack + length ns)%nat.
Proof.
  induction ns as [|[nr nc] ns IH]; intros stack; simpl; [lia|].
  etransitivity; [apply IH|]. unfold Circuit.push_neighbour.
  destruct (Circuit.outside nr nc); [lia|]. destruct (_ && _); simpl; lia.
Qed.

Lemma adjacent_neighbours r c q :
  Circuit.adjacent (r, c) q <-> In q (Circuit.neighbours r c).
Proof.
  destruct q as [r' c']. unfold Circuit.adjacent, Circuit.neighbours. simpl. split.
  - intros H.
    assert (Hcases : (r' = r - 1 /\ c' = c) \/ (r' = r + 1 /\ c' = c)
                     \/ (r' = r /\ c' = c - 1) \/ (r' = r /\ c' = c + 1)) by lia.
    destruct Hcases as [[-> ->]|[[-> ->]|[[-> ->]|[-> ->]]]]; tauto.
  - intros [H|[H|[H|[H|[]]]]]; injection H as <- <-; lia.
Qed.

(** ** The cells not yet visited *)

Lemma grid_positions_In r c :
  Circuit.outside r c = false -> In (r, c) Circuit.grid_positions.
Proof.
  unfold Circuit.outside, Circuit.CIRCUIT_SIZE. intros H.
  apply orb_false_iff in H as [H Hc2]. apply orb_false_iff in H as [H Hc1].
  apply orb_false_iff in H as [Hr1 Hr2].
  apply Z.ltb_ge in Hr1, Hc1. apply Z.leb_gt in Hr2, Hc2.
  assert (Hidx : forall z, 0 <= z < 6 -> In z Circuit.indices).
  { intros z Hz. unfold Circuit.indices. apply in_map_iff.
    exists (Z.to_nat z). split; [lia|]. apply in_seq.
    unfold Circuit.CIRCUIT_SIZE. lia. }
  unfold Circuit.grid_positions. apply in_flat_map. exists r.
  split; [apply Hidx; lia|]. apply in_map. apply Hidx. lia.
Qed.

Lemma filter_length_le {A} (f g : A -> bool) (l : list A) :
  (forall x, g x = true -> f x = true) ->
  (length (filter g l) <= length (filter f l))%nat.
Proof.
  intros H. induction l as [|a l IH]; simpl; [lia|].
  destruct (g a) eqn:Hg.
  - rewrite (H a Hg). simpl. lia.
  - destruct (f a); simpl; lia.
Qed.

Lemma filter_length_lt {A} (f g : A -> bool) (l : list A) x :
  (forall y, g y = true -> f y = true) ->
  In x l -> f x = true -> g x = false ->
  (length (filter g l) < length (filter f l))%nat.
Proof.
  intros H. induction l as [|a l IH]; simpl; [tauto|].
  intros [->|Hin] Hf Hg.
  - rewrite Hf, Hg. simpl. pose proof (filter_length_le f g l H). lia.
  - specialize (IH Hin Hf Hg). destruct (g a) eqn:Hga.
    + rewrite (H a Hga). simpl. lia.
    + destruct (f a); simpl; lia.
Qed.

Lemma unvisited_add_le k visited :
  (length (unvisited (k :: visited)) <= length (unvisited visited))%nat.
Proof.
  apply filter_length_le. intros p. unfold Circuit.has. simpl.
  destruct (String.eqb _ k); simpl; [discriminate|auto].
Qed.

Lemma unvisited_add_lt r c visited :
  Circuit.outside r c = false ->
  Circuit.has (Circuit.key r c) visited = false ->
  (length (unvisited (Circuit.key r c :: visited)) < length (unvisited visited))%nat.
Proof.
  intros Hin Hv. apply (filter_length_lt _ _ _ (r, c)).
  - intros p. unfold Circuit.has. simpl.
    destruct (String.eqb _ (Circuit.key r c)); simpl; [discriminate|auto].
  - now apply grid_positions_In.
  - unfold keyp. simpl. now rewrite Hv.
  - unfold keyp, Circuit.has. simpl. now rewrite String.eqb_refl.
Qed.

(** ** The search *)

Lemma connected_snoc cells a p q :
  Circuit.connected cells a p ->
  Circuit.occupied cells p -> Circuit.adjacent p q -> Circuit.occupied cells q ->
  Circuit.connected cells a q.
Proof.
  induction 1 as [p|p p' t Hp Ha Hp' Hc IH]; intros Ho Hadj Hq.
  - eapply Circuit.connected_step; eauto. constructor.
  - eapply Circuit.connected_step; eauto.
Qed.

Lemma search_decides cells start bulb fuel : forall stack visited,
  (5 * length (unvisited visited) + length stack < fuel)%nat ->
  search_invariant cells start bulb stack visited ->
  exists b, Circuit.search fuel cells bulb stack visited = Some b
            /\ (b = true <-> Circuit.connected cells start bulb).
Proof.
  induction fuel as [|fuel IH]; intros stack visited Hfuel (Hst & Hbulb & Hclosed & Hstart);
    [lia|].
  destruct stack as [|[r c] stack]; cbn [Circuit.search].
  - exists false. split; [reflexivity|]. split; [discriminate|].
    intros Hcon. exfalso. apply Hbulb.
    destruct Hstart as [Hstart|[]].
    clear -Hcon Hstart Hclosed.
    induction Hcon as [p|p q t Hp Ha Hq Hc IHc]; [assumption|].
    apply IHc. destruct (Hclosed p q Hstart Hp Ha Hq) as [H|[]]. exact H.
  - destruct ((r =? fst bulb) && (c =? snd bulb)) eqn:Hb.
    + exists true. split; [reflexivity|]. split; [|reflexivity]. intros _.
      apply andb_true_iff in Hb as [Hr Hc]. apply Z.eqb_eq in Hr, Hc.
      replace bulb with (r, c) by (destruct bulb; simpl in *; congruence).
      apply Hst. now left.
    + assert (Hne : (r, c) <> bulb).
      { intros <-. simpl in Hb. now rewrite !Z.eqb_refl in Hb. }
      destruct (Circuit.has (Circuit.key r c) visited) eqn:Hv.
      * apply IH; [simpl in Hfuel; lia|].
        apply has_In in Hv.
        split; [intros p Hp; apply Hst; now right|].
        split; [assumption|]. split.
        -- intros p q Hp Ho Ha Hq.
           destruct (Hclosed p q Hp Ho Ha Hq) as [H|[<-|H]]; auto.
        -- destruct Hstart as [H|[<-|H]]; auto.
      * assert (Hbulb' : ~ In (keyp bulb) (Circuit.key r c :: visited)).
        { intros [H|H]; [|auto]. apply Hne. destruct bulb as [br bc].
          apply key_injective in H as [-> ->]. reflexivity. }
        destruct (Circuit.is_component (Circuit.getCellType cells r c)) eqn:Hc;
          cbn [negb].
        -- apply IH.
           { pose proof (unvisited_add_lt r c visited (occupied_inside _ _ _ Hc) Hv).
             pose proof (push_neighbours_length cells (Circuit.key r c :: visited)
                           (Circuit.neighbours r c) stack).
             change (length (Circuit.neighbours r c)) with 4%nat in H0.
             simpl in Hfuel. lia. }
           split; [|split; [assumption|split]].
           ++ intros p Hp. apply push_neighbours_In in Hp as [Hp|(Hn & Ho & _)].
              ** apply Hst. now right.
              ** apply (connected_snoc cells start (r, c) p); auto.
                 --- apply Hst. now left.
                 --- now apply adjacent_neighbours.
           ++ intros p q [Hp|Hp] Ho Ha Hq.
              ** destruct p as [pr pc]. apply key_injective in Hp as [-> ->].
                 destruct (Circuit.has (keyp q) (Circuit.key pr pc :: visited)) eqn:Hq'.
                 --- left. now apply has_In.
                 --- right. apply push_neighbours_In. right.
                     split; [now apply adjacent_neighbours|]. split; assumption.
              ** destruct (Hclosed p q Hp Ho Ha Hq) as [H|[<-|H]].
                 --- left. now right.
                 --- left. now left.
                 --- right. apply push_neighbours_In. now left.
           ++ destruct Hstart as [H|[<-|H]].
              ** left. now right.
              ** left. now left.
              ** right. apply push_neighbours_In. now left.
        -- apply IH.
           { pose proof (unvisited_add_le (Circuit.key r c) visited).
             simpl in Hfuel. lia. }
           split; [intros p Hp; apply Hst; now right|].
           split; [assumption|split].
           ++ intros p q [Hp|Hp] Ho Ha Hq.
              ** destruct p as [pr pc]. unfold keyp in Hp. cbn [fst snd] in Hp.
                 apply key_injective in Hp as [-> ->].
                 unfold Circuit.occupied in Ho. cbn [fst snd] in Ho. congruence.
              ** destruct (Hclosed p q Hp Ho Ha Hq) as [H|[<-|H]].
                 --- left. now right.
                 --- left. now left.
                 --- now right.
           ++ destruct Hstart as [H|[<-|H]].
              ** left. now right.
              ** left. now left.
              ** now right.
Qed.

Lemma unvisited_at_most_36 : (length (unvisited []) <= 36)%nat.
Proof.
  unfold unvisited.
  etransitivity; [apply (filter_length_le (fun _ => true)); reflexivity|].
  vm_compute. lia.
Qed.

Lemma search_invariant_initial cells start bulb :
  search_invariant cells start bulb [start] [].
Proof.
  split; [|split; [|split]].
  - intros p [<-|[]]. constructor.
  - intros [].
  - intros p q [].
  - right. now left.
Qed.

(** X20: [hasPathFromBatteryToBulb] terminates (within 182 iterations of
    its loop) and decides whether the bulb can be reached from the
    battery: it returns [true] exactly when the two positions are the
    same or a chain of cells holding components, each next to the
    following one in its row or column, leads from the first to the
    second. *)
Theorem hasPath_decides_connected cells batteryPos bulbPos fuel :
  (5 * 36 + 1 < fuel)%nat ->
  exists b,
    Circuit.hasPathFromBatteryToBulb fuel cells batteryPos bulbPos = Some b
    /\ (b = true <-> Circuit.connected cells batteryPos bulbPos).
Proof.
  intros Hfuel. unfold Circuit.hasPathFromBatteryToBulb.
  apply search_decides.
  - pose proof unvisited_at_most_36. simpl. lia.
  - apply search_invariant_initial.
Qed.

Lemma hasPath_decides_connected_witness :
  let cells := [["battery"; "wire"; "bulb"]] in
  (5 * 36 + 1 < 200)%nat
  /\ Circuit.hasPathFromBatteryToBulb 200 cells (0, 0) (0, 2) = Some true
  /\ exists b,
      Circuit.hasPathFromBatteryToBulb 200 cells (0, 0) (0, 2) = Some b
      /\ (b = true <-> Circuit.connected cells (0, 0) (0, 2)).
Proof.
  cbv zeta. split; [lia|]. split; [vm_compute; reflexivity|].
  apply (hasPath_decides_connected [["battery"; "wire"; "bulb"]] (0, 0) (0, 2) 200).
  lia.
Defined.

(** ** The Simulate button *)

Lemma scan_battery cells l : forall found,
  match fst (fold_left (Circuit.scan_cell cells) l found) with
  | Some p =>
      (In p l /\ Circuit.getCellType cells (fst p) (snd p) = "battery")
      \/ fst found = Some p
  | None =>
      fst found = None
      /\ forall p, In p l -> Circuit.getCellType cells (fst p) (snd p) <> "battery"
  end.
Proof.
  induction l as [|x l IH]; intros found; simpl.
  - destruct (fst found); auto.
  - specialize (IH (Circuit.scan_cell cells found x)).
    destruct (fst (fold_left _ l _)) as [p|].
    + destruct IH as [[Hin Hp]|Hf]; [left; split; auto|].
      unfold Circuit.scan_cell in Hf. cbn [fst] in Hf.
      destruct (String.eqb_spec (Circuit.getCellType cells (fst x) (snd x)) "battery");
        [injection Hf as <-; left; split; auto|now right].
    + destruct IH as [Hf Hall]. unfold Circuit.scan_cell in Hf. cbn [fst] in Hf.
      destruct (String.eqb_spec (Circuit.getCellType cells (fst x) (snd x)) "battery");
        [discriminate|].
      split; [assumption|]. intros p [<-|Hp]; auto.
Qed.

Lemma scan_bulb cells l : forall found,
  match snd (fold_left (Circuit.scan_cell cells) l found) with
  | Some p =>
      (In p l /\ Circuit.getCellType cells (fst p) (snd p) = "bulb")
      \/ snd found = Some p
  | None =>
      snd found = None
      /\ forall p, In p l -> Circuit.getCellType cells (fst p) (snd p) <> "bulb"
  end.
Proof.
  induction l as [|x l IH]; intros found; simpl.
  - destruct (snd found); auto.
  - specialize (IH (Circuit.scan_cell cells found x)).
    destruct (snd (fold_left _ l _)) as [p|].
    + destruct IH as [[Hin Hp]|Hf]; [left; split; auto|].
      unfold Circuit.scan_cell in Hf. cbn [snd] in Hf.
      destruct (String.eqb_spec (Circuit.getCellType cells (fst x) (snd x)) "bulb");
        [injection Hf as <-; left; split; auto|now right].
    + destruct IH as [Hf Hall]. unfold Circuit.scan_cell in Hf. cbn [snd] in Hf.
      destruct (String.eqb_spec (Circuit.getCellType cells (fst x) (snd x)) "bulb");
        [discriminate|].
      split; [assumption|]. intros p [<-|Hp]; auto.
Qed.

(** X21: the Simulate button always gives an answer.  It asks for a
    battery exactly when no cell holds one, and for a bulb exactly when
    a cell holds a battery and none holds a bulb.  When it reports a
    closed circuit, a cell holding a battery is connected to a cell
    holding a bulb; and on a grid with one battery and one bulb it
    reports a closed circuit exactly when the two are connected. *)
Theorem simulate_reports_connection cells fuel :
  (5 * 36 + 1 < fuel)%nat ->
  exists result,
    Circuit.simulate fuel cells = Some result
    /\ (result = Circuit.PlaceBattery <-> ~ exists p, holds cells "battery" p)
    /\ (result = Circuit.PlaceBulb
        <-> (exists p, holds cells "battery" p) /\ ~ exists p, holds cells "bulb" p)
    /\ (result = Circuit.CircuitClosed ->
        exists battery bulb,
          holds cells "battery" battery /\ holds cells "bulb" bulb
          /\ Circuit.connected cells battery bulb)
    /\ (forall battery bulb,
           holds cells "battery" battery ->
           (forall p, holds cells "battery" p -> p = battery) ->
           holds cells "bulb" bulb ->
           (forall p, holds cells "bulb" p -> p = bulb) ->
           (result = Circuit.CircuitClosed <-> Circuit.connected cells battery bulb)).
Proof.
  intros Hfuel. unfold Circuit.simulate.
  pose proof (scan_battery cells Circuit.grid_positions (None, None)) as Hbat.
  pose proof (scan_bulb cells Circuit.grid_positions (None, None)) as Hbulb.
  destruct (fold_left _ Circuit.grid_positions _) as [[bat|] [bulb|]];
    cbn [fst snd] in Hbat, Hbulb.
  - destruct Hbat as [[Hbin Hbat]|]; [|discriminate].
    destruct Hbulb as [[Hlin Hbulb]|]; [|discriminate].
    assert (Hsearch : exists b,
               Circuit.hasPathFromBatteryToBulb fuel cells bat bulb = Some b
               /\ (b = true <-> Circuit.connected cells bat bulb)).
    { apply search_decides; [|apply search_invariant_initial].
      pose proof unvisited_at_most_36. simpl. lia. }
    destruct Hsearch as (b & -> & Hb).
    assert (Hholds : exists p, holds cells "battery" p) by (exists bat; now split).
    assert (Hholds' : exists p, holds cells "bulb" p) by (exists bulb; now split).
    destruct b.
    + exists Circuit.CircuitClosed. split; [reflexivity|].
      split; [split; [discriminate|tauto]|]. split; [split; [discriminate|tauto]|].
      split.
      * intros _. exists bat, bulb. repeat split; try assumption. now apply Hb.
      * intros battery bulb' _ Hu _ Hu'.
        rewrite <- (Hu bat), <- (Hu' bulb) by now split.
        split; [intros _; now apply Hb|reflexivity].
    + exists Circuit.BulbDoesNotLight. split; [reflexivity|].
      split; [split; [discriminate|tauto]|]. split; [split; [discriminate|tauto]|].
      split; [discriminate|].
      intros battery bulb' _ Hu _ Hu'.
      rewrite <- (Hu bat), <- (Hu' bulb) by now split.
      split; [discriminate|]. intros Hc. apply Hb in Hc. discriminate.
  - destruct Hbat as [[Hbin Hbat]|]; [|discriminate].
    destruct Hbulb as [_ Hnone].
    assert (Hno : ~ exists p, holds cells "bulb" p).
    { intros (p & Hp & Ht). now apply (Hnone p). }
    exists Circuit.PlaceBulb. split; [reflexivity|].
    split; [split; [discriminate|]|].
    { intros H. exfalso. apply H. exists bat. now split. }
    split.
    { split; [intros _; split; [exists bat; now split|assumption]|reflexivity]. }
    split; [discriminate|].
    intros battery bulb _ _ Hl _. exfalso. apply Hno. now exists bulb.
  - destruct Hbat as [_ Hnone].
    assert (Hno : ~ exists p, holds cells "battery" p).
    { intros (p & Hp & Ht). now apply (Hnone p). }
    exists Circuit.PlaceBattery. split; [reflexivity|].
    split; [tauto|]. split; [split; [discriminate|tauto]|].
    split; [discriminate|].
    intros battery bulb' Hb _ _ _. exfalso. apply Hno. now exists battery.
  - destruct Hbat as [_ Hnone].
    assert (Hno : ~ exists p, holds cells "battery" p).
    { intros (p & Hp & Ht). now apply (Hnone p). }
    exists Circuit.PlaceBattery. split; [reflexivity|].
    split; [tauto|]. split; [split; [discriminate|tauto]|].
    split; [discriminate|].
    intros battery bulb' Hb _ _ _. exfalso. apply Hno. now exists battery.
Qed.

Lemma simulate_reports_connection_witness :
  let cells := [["battery"; "wire"; ""]; [""; "resistor"; "bulb"]] in
  (5 * 36 + 1 < 200)%nat
  /\ Circuit.simulate 200 cells = Some Circuit.CircuitClosed
  /\ exists result,
      Circuit.simulate 200 cells = Some result
      /\ (result = Circuit.CircuitClosed ->
          exists battery bulb,
            holds cells "battery" battery /\ holds cells "bulb" bulb
            /\ Circuit.connected cells battery bulb).
Proof.
  cbv zeta. split; [lia|]. split; [vm_compute; reflexivity|].
  destruct (simulate_reports_connection
              [["battery"; "wire"; ""]; [""; "resistor"; "bulb"]] 200 ltac:(lia))
    as (result & Hr & _ & _ & Hc & _).
  exists result. split; assumption.
Defined.

(** With two batteries only the one found last (reading the grid row by
    row) is considered: here the first battery is next to the bulb and
    the bulb is reported as not lit. *)
Example simulate_considers_last_battery :
  Circuit.simulate 200 [["battery"; "bulb"; ""; "battery"]]
  = Some Circuit.BulbDoesNotLight.
Proof.
  vm_compute. reflexivity.
Qed.
